(** * AutoTrustRoot: the trust-root assembler

    A shallow embedding of the Go program that reads a Sigstore
    [trusted_root.json], transcodes the certificate chains of its
    authorities to PEM and patches them into a YAML template
    ([main], [convertToPEM], [updateYAML], [copyFile]).

    Go values are modelled as follows.
    - [string]            : [string] (a sequence of 8-bit characters);
    - [[]byte]            : [list byte];
    - [int]               : [Z] (the indices met here never wrap);
    - [interface{}]       : the inductive [value] below;
    - [map[string]interface{}] : [gmap string value], so that two trees that
      differ only in the order of their keys are equal;
    - [[]interface{}]     : [list value].

    The packages the program imports are modelled next to it:
    [encoding/base64] and [encoding/pem] as executable functions,
    [crypto/x509], [encoding/json] and [gopkg.in/yaml.v3] as the fields of
    the class [Libraries], and [os] as operations on a small file system. *)

From Stdlib Require Import NArith ZArith Lia.
From Stdlib.Strings Require Import Ascii String Byte.
From stdpp Require Import gmap strings list fin_maps.

#[local] Set Warnings "-register-all".
#[local] Open Scope Z_scope.

(* ===================================================================== *)
(** ** Strings and bytes *)
(* ===================================================================== *)

Definition newline : ascii := "010"%char.
Definition carriage : ascii := "013"%char.

(** [[]byte(s)] and [string(b)]. *)
Definition bytesOf (s : string) : list byte := list_byte_of_string s.
Definition stringOf (b : list byte) : string := string_of_list_byte b.

(** [strings.HasPrefix] and [strings.HasSuffix], as propositions. *)
Definition HasPrefix (s p : string) : Prop := exists r, s = p +:+ r.
Definition HasSuffix (s p : string) : Prop := exists r, s = r +:+ p.

(* ===================================================================== *)
(** ** encoding/base64, [StdEncoding] *)
(* ===================================================================== *)

Module Base64.

#[local] Open Scope N_scope.

Definition encodeStd : string :=
  "ABCDEFGHIJKLMNOPQRSTUVWXYZabcdefghijklmnopqrstuvwxyz0123456789+/".

Definition padChar : ascii := "="%char.

(** [enc.encode[v]] *)
Definition encodeChar (v : N) : ascii :=
  match String.get (N.to_nat v) encodeStd with
  | Some c => c
  | None => zero
  end.

(** [enc.decodeMap[c]]: the position of [c] in the alphabet, [0xFF] for
    every byte outside it. *)
Fixpoint findChar (c : ascii) (alphabet : string) (i : N) : N :=
  match alphabet with
  | EmptyString => 255
  | String d rest => if Ascii.eqb c d then i else findChar c rest (i + 1)
  end.

Definition decodeMap (c : ascii) : N := findChar c encodeStd 0.

(** [byte(n)]: conversion of a [uint] to a byte keeps the low 8 bits. *)
Definition byteOfN (n : N) : byte :=
  match Byte.of_N (n mod 256) with
  | Some b => b
  | None => x00
  end.

Definition sextet (val k : N) : ascii :=
  encodeChar (N.land (N.shiftr val k) 63).

(** [Encoding.EncodeToString]: three bytes give four characters; a last
    block of one or two bytes is padded with [=]. *)
Fixpoint EncodeToString (src : list byte) : string :=
  match src with
  | [] => EmptyString
  | [b0] =>
      let val := N.shiftl (Byte.to_N b0) 16 in
      String (sextet val 18) (String (sextet val 12)
        (String padChar (String padChar EmptyString)))
  | [b0; b1] =>
      let val := N.lor (N.shiftl (Byte.to_N b0) 16)
                       (N.shiftl (Byte.to_N b1) 8) in
      String (sextet val 18) (String (sextet val 12)
        (String (sextet val 6) (String padChar EmptyString)))
  | b0 :: b1 :: b2 :: rest =>
      let val := N.lor (N.lor (N.shiftl (Byte.to_N b0) 16)
                              (N.shiftl (Byte.to_N b1) 8))
                       (Byte.to_N b2) in
      String (sextet val 18) (String (sextet val 12)
        (String (sextet val 6) (String (sextet val 0)
          (EncodeToString rest))))
  end.

Definition isNL (c : ascii) : bool :=
  Ascii.eqb c newline || Ascii.eqb c carriage.

(** The loops [for si < len(src) && (src[si] == '\n' || src[si] == '\r')]. *)
Fixpoint skipNL (s : string) : string :=
  match s with
  | EmptyString => EmptyString
  | String c rest => if isNL c then skipNL rest else s
  end.

(** The tail of [decodeQuantum]: the sextets read so far (missing ones
    count as zero) are packed into 24 bits, of which [dlen - 1] bytes are
    kept. *)
Definition quantumBytes (dbuf : list N) (dlen : nat) : list byte :=
  let d i := nth i dbuf 0 in
  let val := N.lor (N.lor (N.lor (N.shiftl (d 0%nat) 18)
                                 (N.shiftl (d 1%nat) 12))
                          (N.shiftl (d 2%nat) 6))
                   (d 3%nat) in
  take (dlen - 1)
    [byteOfN (N.shiftr val 16); byteOfN (N.shiftr val 8); byteOfN val].

(** [Encoding.Decode], non-strict, with padding: [dbuf] holds the sextets
    of the quantum being read.  Line breaks are skipped wherever they
    stand; [None] is a [CorruptInputError]. *)
Fixpoint decodeFrom (src : string) (dbuf : list N) : option (list byte) :=
  match src with
  | EmptyString =>
      match dbuf with
      | [] => Some []
      | _ => None
      end
  | String c rest =>
      let out := decodeMap c in
      if negb (out =? 255) then
        let dbuf' := dbuf ++ [out] in
        if (length dbuf' =? 4)%nat
        then app (quantumBytes dbuf' 4) <$> decodeFrom rest []
        else decodeFrom rest dbuf'
      else if isNL c then decodeFrom rest dbuf
      else if negb (Ascii.eqb c padChar) then None
      else
        match length dbuf with
        | 0%nat | 1%nat => None
        | 2%nat =>
            match skipNL rest with
            | EmptyString => None
            | String c' rest' =>
                if Ascii.eqb c' padChar then
                  match skipNL rest' with
                  | EmptyString => Some (quantumBytes dbuf 2)
                  | String _ _ => None
                  end
                else None
            end
        | _ =>
            match skipNL rest with
            | EmptyString => Some (quantumBytes dbuf (length dbuf))
            | String _ _ => None
            end
        end
  end.

Definition DecodeString (s : string) : option (list byte) :=
  decodeFrom s [].

(** The text without its line breaks (used to state that the decoder does
    not see them). *)
Fixpoint stripNL (s : string) : string :=
  match s with
  | EmptyString => EmptyString
  | String c rest => if isNL c then stripNL rest else String c (stripNL rest)
  end.

End Base64.

(* ===================================================================== *)
(** ** encoding/pem *)
(* ===================================================================== *)

Module Pem.

Definition pemLineLength : nat := 64.

(** [pem.Block]; the program never sets [Headers], which are left out. *)
Record Block : Type := { Type_ : string; Bytes : list byte }.

(** The [lineBreaker] writer: [used] is the number of characters of the
    current line; a line break follows every 64th character, and [Close]
    ends a line that was begun. *)
Fixpoint lineBreaker (used : nat) (s : string) : string :=
  match s with
  | EmptyString =>
      if (used =? 0)%nat then EmptyString else String newline EmptyString
  | String c rest =>
      if (S used =? pemLineLength)%nat
      then String c (String newline (lineBreaker 0 rest))
      else String c (lineBreaker (S used) rest)
  end.

Definition pemStart (type : string) : string :=
  "-----BEGIN " +:+ type +:+ "-----" +:+ String newline EmptyString.

Definition pemEnd (type : string) : string :=
  "-----END " +:+ type +:+ "-----" +:+ String newline EmptyString.

(** [pem.Encode] into a [strings.Builder], whose writes cannot fail. *)
Definition Encode (b : Block) : string :=
  pemStart (Type_ b)
    +:+ lineBreaker 0 (Base64.EncodeToString (Bytes b))
    +:+ pemEnd (Type_ b).

End Pem.

(* ===================================================================== *)
(** ** Go values, errors and outcomes *)
(* ===================================================================== *)

(** The dynamic values of type [interface{}] that the JSON and YAML decoders
    build.  [VMap] is [map[string]interface{}]; [VGenMap] is the
    [map[interface{}]interface{}] that yaml.v3 builds for a mapping with a
    key that is not a string, and which no type assertion of the program
    accepts.  [VFloat] carries the bits of a [float64], which the program
    never inspects. *)
Inductive value : Type :=
  | VNil
  | VBool (b : bool)
  | VInt (z : Z)
  | VFloat (bits : Z)
  | VString (s : string)
  | VSlice (l : list value)
  | VMap (m : gmap string value)
  | VGenMap (kvs : list (value * value)).

Inductive error : Type :=
  | ErrNotExist (op path : string)
  | ErrPermission (op path : string)
  | CorruptInputError
  | PkgError (pkg msg : string)
  | Errorf (format : string) (wrapped : option error).

(** What a call of a Go function of the program ends in: a result, a non-nil
    [error], or a run-time panic. *)
Inductive outcome (A : Type) : Type :=
  | Ok (a : A)
  | Err (e : error)
  | Panic (msg : string).
Arguments Ok {A} a.
Arguments Err {A} e.
Arguments Panic {A} msg.

(** [os.IsNotExist] *)
Definition IsNotExist (e : error) : bool :=
  match e with
  | ErrNotExist _ _ => true
  | _ => false
  end.

(* ===================================================================== *)
(** ** The process: file system, standard error, exit *)
(* ===================================================================== *)

Inductive logArg : Type :=
  | AString (s : string)
  | AInt (z : Z)
  | AErr (e : error).

(** One call of [log.Printf]: the format and its arguments (the time stamp
    that [log.LstdFlags] adds is not modelled). *)
Record logLine : Type := LogLine { format : string; args : list logArg }.

(** The files by path, the paths that cannot be opened for reading or for
    writing, and what was written to standard error. *)
Record World : Type := {
  files : gmap string (list byte);
  unreadable : gset string;
  unwritable : gset string;
  stderr : list logLine
}.

Definition setFiles (fs : gmap string (list byte)) (w : World) : World :=
  {| files := fs; unreadable := unreadable w; unwritable := unwritable w;
     stderr := stderr w |}.

Definition addLog (l : logLine) (w : World) : World :=
  {| files := files w; unreadable := unreadable w; unwritable := unwritable w;
     stderr := stderr w ++ [l] |}.

(** [os.ReadFile]; [os.Open] followed by reading the whole file behaves
    alike. *)
Definition ReadFile (name : string) (w : World) : error + list byte :=
  match files w !! name with
  | None => inl (ErrNotExist "open" name)
  | Some data =>
      if decide (name ∈ unreadable w) then inl (ErrPermission "open" name)
      else inr data
  end.

(** [os.WriteFile name data 0644]: creates or truncates the file.  The call
    fails here only when the file cannot be opened; a write that fails once
    the file has been truncated, which leaves a part of [data] in it, is not
    modelled. *)
Definition WriteFile (name : string) (data : list byte) (w : World)
  : World * option error :=
  if decide (name ∈ unwritable w) then (w, Some (ErrPermission "open" name))
  else (setFiles (<[name := data]> (files w)) w, None).

(** [os.Truncate name 0] *)
Definition Truncate (name : string) (w : World) : World * option error :=
  match files w !! name with
  | None => (w, Some (ErrNotExist "truncate" name))
  | Some _ =>
      if decide (name ∈ unwritable w)
      then (w, Some (ErrPermission "truncate" name))
      else (setFiles (<[name := []]> (files w)) w, None)
  end.

(** [os.Create] *)
Definition Create (name : string) (w : World) : World * option error :=
  if decide (name ∈ unwritable w) then (w, Some (ErrPermission "open" name))
  else (setFiles (<[name := []]> (files w)) w, None).

(** A step of the process either goes on with a result or has left through
    [os.Exit]. *)
Inductive step (A : Type) : Type :=
  | Done (a : A)
  | Exited (code : Z).
Arguments Done {A} a.
Arguments Exited {A} code.

Definition Proc (A : Type) : Type := World → World * step A.

Definition ret {A : Type} (a : A) : Proc A := fun w => (w, Done a).

Definition bind {A B : Type} (m : Proc A) (k : A → Proc B) : Proc B :=
  fun w =>
    match m w with
    | (w', Done a) => k a w'
    | (w', Exited code) => (w', Exited code)
    end.

Notation "'let*' x ':=' m 'in' k" := (bind m (fun x => k))
  (at level 10, x name, m at level 100, k at level 200).

(** [log.Printf] and [log.Fatalf], which is [Printf] followed by
    [os.Exit(1)]. *)
Definition Printf (fmt : string) (a : list logArg) : Proc unit :=
  fun w => (addLog (LogLine fmt a) w, Done tt).

Definition Fatalf {A : Type} (fmt : string) (a : list logArg) : Proc A :=
  fun w => (addLog (LogLine fmt a) w, Exited 1).

(** A panic that reaches the top of [main]: the run time ends the process
    with status 2. *)
Definition crash {A : Type} (msg : string) : Proc A :=
  fun w => (w, Exited 2).

(** [for j := start; j < start + len(l); j++ { s = body j l[j] s }] *)
Fixpoint forEach {S : Type} (body : Z → value → S → Proc S)
    (j : Z) (l : list value) (s : S) : Proc S :=
  match l with
  | [] => ret s
  | x :: rest => let* s' := body j x s in forEach body (j + 1) rest s'
  end.

(** The packages that are taken as given. *)
Class Libraries : Type := {
  Certificate : Type;
  x509_ParseCertificate : list byte → error + Certificate;
  json_Decode : list byte → error + gmap string value;
  yaml_Unmarshal : list byte → error + gmap string value;
  yaml_Marshal : gmap string value → error + list byte
}.

(* ===================================================================== *)
(** ** The program *)
(* ===================================================================== *)

(** The values of the command-line flags after [flag.Parse]. *)
Record Flags : Type := {
  outputFilepath : string;
  templateFilePath : string;
  trustedRootPath : string;
  organization : string;
  commonName : string;
  uri : string
}.

Definition defaultFlags : Flags := {|
  outputFilepath := "/tmp/trustroot.yaml";
  templateFilePath := "trustroot.template.yaml";
  trustedRootPath := "~/.sigstore/root/targets/trusted_root.json";
  organization := "GitHub, Inc.";
  commonName := "Internal Services Root";
  uri := "https://fulcio.githubapp.com"
|}.

Definition len (l : list value) : Z := Z.of_nat (length l).

(** The loop [for len(authorityList) <= index { authorityList =
    append(authorityList, map[string]interface{}{}) }] of [updateYAML];
    [fuel] bounds the number of turns. *)
Fixpoint growLoop (fuel : nat) (authorityList : list value) (index : Z)
  : list value :=
  match fuel with
  | O => authorityList
  | S fuel' =>
      if len authorityList <=? index
      then growLoop fuel' (authorityList ++ [VMap ∅]) index
      else authorityList
  end.

(** The loop started with as many turns as it can take. *)
Definition grow (authorityList : list value) (index : Z) : list value :=
  growLoop (Z.to_nat (index + 1 - len authorityList)) authorityList index.

(** The three assignments [entry["subject"] = ...], [entry["uri"] = uri],
    [entry["certChain"] = certChain]. *)
Definition setFields (organization commonName uri certChain : string)
    (entry : gmap string value) : gmap string value :=
  <["certChain" := VString certChain]>
    (<["uri" := VString uri]>
      (<["subject" := VMap (<["commonName" := VString commonName]>
                             (<["organization" := VString organization]> ∅))]>
        entry)).

(** [updateYAML] between [yaml.Unmarshal] and [yaml.Marshal]: the update of
    the tree.  Go maps are references, so the assignments to [entry] and to
    [sigstoreKeys] are seen from [root]; here the updated maps are put back
    into their parents.  The index is an integer without bound: [index + 1]
    does not wrap around as that of Go's [int] does at the largest [int],
    an index that [main], which counts the elements of a slice, never
    passes. *)
Definition updateTree (root : gmap string value) (authority : string)
    (index : Z) (organization commonName uri certChain : string)
  : outcome (gmap string value) :=
  match root !! "spec" with
  | Some (VMap spec) =>
      match spec !! "sigstoreKeys" with
      | Some (VMap sigstoreKeys) =>
          let created :=
            match sigstoreKeys !! authority with
            | Some (VSlice l) => Ok l
            | _ =>
                if index + 1 <? 0 then Panic "makeslice: len out of range"
                else Ok (replicate (Z.to_nat (index + 1)) VNil)
            end in
          match created with
          | Ok authorityList =>
              let authorityList := grow authorityList index in
              if index <? 0 then Panic "index out of range"
              else
                let i := Z.to_nat index in
                let entry :=
                  match authorityList !! i with
                  | Some (VMap entry) => entry
                  | _ => ∅
                  end in
                let entry :=
                  setFields organization commonName uri certChain entry in
                let authorityList := <[i := VMap entry]> authorityList in
                Ok (<["spec" :=
                       VMap (<["sigstoreKeys" :=
                                VMap (<[authority := VSlice authorityList]>
                                        sigstoreKeys)]> spec)]> root)
          | Err e => Err e
          | Panic msg => Panic msg
          end
      | _ => Err (Errorf "missing 'sigstoreKeys' section in YAML" None)
      end
  | _ => Err (Errorf "missing 'spec' section in YAML" None)
  end.

Section Program.

Context {L : Libraries}.

(** [copyFile] *)
Definition copyFile (src dst : string) (w : World) : World * option error :=
  match ReadFile src w with
  | inl err => (w, Some err)
  | inr input => WriteFile dst input w
  end.

(** [convertToPEM] *)
Definition convertToPEM (cert : list byte) : outcome string :=
  match x509_ParseCertificate cert with
  | inl err => Err (Errorf "failed to parse certificate: %w" (Some err))
  | inr _ =>
      let pemBlock := {| Pem.Type_ := "CERTIFICATE"; Pem.Bytes := cert |} in
      Ok (Pem.Encode pemBlock)
  end.

(** [updateYAML] *)
Definition updateYAML (filename authority : string) (index : Z)
    (organization commonName uri certChain : string) (w : World)
  : World * outcome unit :=
  match ReadFile filename w with
  | inl err => (w, Err (Errorf "failed to read YAML file: %w" (Some err)))
  | inr data =>
      match yaml_Unmarshal data with
      | inl err => (w, Err (Errorf "failed to parse YAML: %w" (Some err)))
      | inr root =>
          match updateTree root authority index
                  organization commonName uri certChain with
          | Panic msg => (w, Panic msg)
          | Err e => (w, Err e)
          | Ok root' =>
              match yaml_Marshal root' with
              | inl err =>
                  (w, Err (Errorf "failed to marshal updated YAML: %w"
                             (Some err)))
              | inr updatedData =>
                  match WriteFile filename updatedData w with
                  | (w', Some err) =>
                      (w', Err (Errorf
                                  "failed to write updated YAML file: %w"
                                  (Some err)))
                  | (w', None) => (w', Ok tt)
                  end
              end
          end
      end
  end.

(** The body of the loop over the certificates of one chain: [pemData] is
    the text built so far. *)
Definition certBody (authority : string) (i j : Z) (c : value)
    (pemData : string) : Proc string :=
  match c with
  | VMap cert =>
      match cert !! "rawBytes" with
      | Some (VString rawBytes) =>
          match Base64.DecodeString rawBytes with
          | None =>
              let* _ := Printf "Error decoding base64 for %s[%d][%d]: %v"
                          [AString authority; AInt i; AInt j;
                           AErr CorruptInputError] in
              ret pemData
          | Some decoded =>
              match convertToPEM decoded with
              | Ok pem => ret (pemData +:+ pem)
              | Err err =>
                  let* _ := Printf
                              "Error converting to PEM for %s[%d][%d]: %v"
                              [AString authority; AInt i; AInt j;
                               AErr err] in
                  ret pemData
              | Panic msg => crash msg
              end
          end
      | _ =>
          let* _ := Printf "No rawBytes found for %s[%d][%d]"
                      [AString authority; AInt i; AInt j] in
          ret pemData
      end
  | _ =>
      let* _ := Printf "Invalid certificate data for %s[%d][%d]"
                  [AString authority; AInt i; AInt j] in
      ret pemData
  end.

(** The end of the body of the loop over the entries: the call of
    [updateYAML], whose error is logged. *)
Definition patchEntry (flags : Flags) (authority : string) (i : Z)
    (certChain : string) : Proc unit :=
  fun w =>
    match updateYAML (outputFilepath flags) authority i
            (organization flags) (commonName flags) (uri flags)
            certChain w with
    | (w', Ok _) => ret tt w'
    | (w', Err err) =>
        Printf "Error updating YAML for %s[%d]: %v"
          [AString authority; AInt i; AErr err] w'
    | (w', Panic msg) => crash msg w'
    end.

(** The body of the loop over the entries of one authority kind. *)
Definition entryBody (flags : Flags) (authority : string) (i : Z)
    (entry : value) (_ : unit) : Proc unit :=
  match entry with
  | VMap authorityData =>
      match authorityData !! "certChain" with
      | Some (VMap certChainData) =>
          match certChainData !! "certificates" with
          | Some (VSlice certificates) =>
              let* pemData :=
                forEach (certBody authority i) 0 certificates EmptyString in
              let certChain := Base64.EncodeToString (bytesOf pemData) in
              patchEntry flags authority i certChain
          | _ =>
              Printf "No certificates found for %s[%d]"
                [AString authority; AInt i]
          end
      | _ =>
          Printf "No certChain found for %s[%d]" [AString authority; AInt i]
      end
  | _ => Printf "Invalid data for %s[%d]" [AString authority; AInt i]
  end.

(** The body of the loop over the two authority kinds. *)
Definition kindBody (flags : Flags) (trustedRoot : gmap string value)
    (authority : string) : Proc unit :=
  match trustedRoot !! authority with
  | Some (VSlice authorities) =>
      let* _ := Printf "There are %d %s"
                  [AInt (len authorities); AString authority] in
      forEach (entryBody flags authority) 0 authorities tt
  | _ => Printf "No %s found in trusted_root.json" [AString authority]
  end.

(** The loop [for _, authority := range []string{...}]. *)
Definition processAuthorities (flags : Flags)
    (trustedRoot : gmap string value) : Proc unit :=
  let* _ := kindBody flags trustedRoot "certificateAuthorities" in
  kindBody flags trustedRoot "timestampAuthorities".

(** [main] up to the decoding of [trusted_root.json]: the required flags,
    the output file emptied or created, the template copied over it. *)
Definition setup (flags : Flags) : Proc (gmap string value) :=
  let* _ :=
    if String.eqb (templateFilePath flags) EmptyString
    then Fatalf "The --template-filename flag is required" []
    else ret tt in
  let* _ :=
    if String.eqb (trustedRootPath flags) EmptyString
    then Fatalf "The --trusted-root-path flag is required" []
    else ret tt in
  let* _ := Printf "Template File Path: %s"
              [AString (templateFilePath flags)] in
  let* _ := Printf "Trusted Root Path: %s"
              [AString (trustedRootPath flags)] in
  let* _ := Printf "Output Filename: %s" [AString (outputFilepath flags)] in
  let* _ := Printf "Organization: %s" [AString (organization flags)] in
  let* _ := Printf "Common Name: %s" [AString (commonName flags)] in
  let* _ := Printf "URI: %s" [AString (uri flags)] in
  let* _ :=
    fun w =>
      match Truncate (outputFilepath flags) w with
      | (w', None) => ret tt w'
      | (w', Some err) =>
          if negb (IsNotExist err)
          then Fatalf "Error truncating output file: %v" [AErr err] w'
          else
            match Create (outputFilepath flags) w' with
            | (w'', None) => ret tt w''
            | (w'', Some err) =>
                Fatalf "Error creating output file: %v" [AErr err] w''
            end
      end in
  let* _ :=
    fun w =>
      match copyFile (templateFilePath flags) (outputFilepath flags) w with
      | (w', None) => ret tt w'
      | (w', Some err) =>
          Fatalf "Error copying template file: %v" [AErr err] w'
      end in
  fun w =>
    match ReadFile (trustedRootPath flags) w with
    | inl err => Fatalf "Error opening trusted_root.json: %v" [AErr err] w
    | inr data =>
        match json_Decode data with
        | inl err =>
            Fatalf "Error decoding trusted_root.json: %v" [AErr err] w
        | inr trustedRoot => ret trustedRoot w
        end
    end.

(** [main], from the statement after [flag.Parse] on. *)
Definition main (flags : Flags) : Proc unit :=
  let* trustedRoot := setup flags in
  let* _ := processAuthorities flags trustedRoot in
  Printf "Output written to %s" [AString (outputFilepath flags)].

(** [main] of the variant under [.github/actions/assemble-offline-trustroot]:
    the same two checks come first; what follows them there (the temporary
    file, [openssl] and [yq] run as commands) is taken as [rest]. *)
Definition variantMain (rest : Flags → Proc unit) (flags : Flags)
  : Proc unit :=
  let* _ :=
    if String.eqb (templateFilePath flags) EmptyString
    then Fatalf "The --template-filename flag is required" []
    else ret tt in
  let* _ :=
    if String.eqb (trustedRootPath flags) EmptyString
    then Fatalf "The --trusted-root-path flag is required" []
    else ret tt in
  rest flags.

(** The exit status of the process. *)
Definition exitCode (r : World * step unit) : Z :=
  match r with
  | (_, Done _) => 0
  | (_, Exited code) => code
  end.

(** What [flag.Parse] at the head of [main] makes of the command line.  The
    six flags are defined on [flag.CommandLine], which handles errors with
    [flag.ExitOnError]: [flag.Parse] either returns, and the flags have their
    values, or ends the process itself, with status 0 when the command line
    asks for help ([-h], [-help]) and with status 2 when it holds a flag that
    is not defined or a flag without its value.  What it prints before it
    ends the process is not modelled. *)
Inductive parseResult : Type :=
  | Parsed (flags : Flags)
  | HelpRequested
  | BadFlag.

(** The exit status of the program, [flag.Parse] included; [main] above is
    the program from the statement after [flag.Parse] on. *)
Definition exitStatus (parsed : parseResult) (w : World) : Z :=
  match parsed with
  | Parsed flags => exitCode (main flags w)
  | HelpRequested => 0
  | BadFlag => 2
  end.

End Program.

(* ===================================================================== *)
(** ** Notions used to state the properties *)
(* ===================================================================== *)

Definition nl : string := String newline EmptyString.
Definition beginCertificate : string := "-----BEGIN CERTIFICATE-----".
Definition endCertificate : string := "-----END CERTIFICATE-----".

(** The sequence at [spec.sigstoreKeys.<authority>] of a document, and its
    element at a position, when they are there. *)
Definition sigstoreKeysOf (root : gmap string value)
  : option (gmap string value) :=
  match root !! "spec" with
  | Some (VMap spec) =>
      match spec !! "sigstoreKeys" with
      | Some (VMap sigstoreKeys) => Some sigstoreKeys
      | _ => None
      end
  | _ => None
  end.

Definition authorityListOf (root : gmap string value) (authority : string)
  : option (list value) :=
  match sigstoreKeysOf root with
  | Some sigstoreKeys =>
      match sigstoreKeys !! authority with
      | Some (VSlice l) => Some l
      | _ => None
      end
  | None => None
  end.

Definition entryOf (root : gmap string value) (authority : string) (i : nat)
  : option (gmap string value) :=
  match authorityListOf root authority with
  | Some l =>
      match l !! i with
      | Some (VMap entry) => Some entry
      | _ => None
      end
  | None => None
  end.

(** The sequence that [updateYAML] starts from, and the one it leaves. *)
Definition initialList (sigstoreKeys : gmap string value) (authority : string)
    (index : Z) : list value :=
  match sigstoreKeys !! authority with
  | Some (VSlice l) => l
  | _ => replicate (Z.to_nat (index + 1)) VNil
  end.

Definition entryFields (l : list value) (i : nat) : gmap string value :=
  match l !! i with
  | Some (VMap entry) => entry
  | _ => ∅
  end.

Definition patchedList (l : list value) (index : Z)
    (organization commonName uri certChain : string) : list value :=
  <[Z.to_nat index :=
      VMap (setFields organization commonName uri certChain
              (entryFields (grow l index) (Z.to_nat index)))]>
    (grow l index).

Definition patchedRoot (root spec sigstoreKeys : gmap string value)
    (authority : string) (l : list value) : gmap string value :=
  <["spec" := VMap (<["sigstoreKeys" :=
                       VMap (<[authority := VSlice l]> sigstoreKeys)]> spec)]>
    root.

(** [l'] is [l] grown to hold position [index]: it has [index + 1] elements,
    those of [l] stand where they stood, and the positions from the length
    of [l] up to [index - 1] hold empty mappings. *)
Definition grownFrom (l l' : list value) (index : Z) : Prop :=
  len l' = index + 1
  ∧ (∀ j : nat, (j < length l)%nat → l' !! j = l !! j)
  ∧ (∀ j : nat, (length l ≤ j)%nat → Z.of_nat j < index →
       l' !! j = Some (VMap ∅)).



(** The PEM block that one certificate of a chain contributes: there is one
    when the certificate is a mapping whose [rawBytes] is a string that
    decodes from base64 to bytes that [x509.ParseCertificate] accepts. *)
Definition transcode `{L : Libraries} (c : value) : option string :=
  match c with
  | VMap cert =>
      match cert !! "rawBytes" with
      | Some (VString rawBytes) =>
          match Base64.DecodeString rawBytes with
          | Some decoded =>
              match x509_ParseCertificate decoded with
              | inr _ =>
                  Some (Pem.Encode {| Pem.Type_ := "CERTIFICATE";
                                      Pem.Bytes := decoded |})
              | inl _ => None
              end
          | None => None
          end
      | _ => None
      end
  | _ => None
  end.

(** The blocks of the certificates of a chain that transcode, in the order
    of the chain. *)
Definition pemBlocks `{L : Libraries} (certificates : list value)
  : list string :=
  omap transcode certificates.

(** The concatenation of the blocks, with nothing between them. *)
Definition joinAll (blocks : list string) : string :=
  foldr String.append EmptyString blocks.

(** Several lines written to standard error. *)
Definition addLogs (ls : list logLine) (w : World) : World :=
  {| files := files w; unreadable := unreadable w; unwritable := unwritable w;
     stderr := stderr w ++ ls |}.

(** A certificate of a chain that is not a mapping, or whose [rawBytes] is
    missing or not a string, or does not decode from base64, or decodes to
    bytes that [x509.ParseCertificate] refuses. *)
Definition badCertificate `{L : Libraries} (c : value) : Prop :=
  (∀ cert, c ≠ VMap cert)
  ∨ (∃ cert, c = VMap cert ∧ ∀ s, cert !! "rawBytes" ≠ Some (VString s))
  ∨ (∃ cert s, c = VMap cert ∧ cert !! "rawBytes" = Some (VString s)
               ∧ Base64.DecodeString s = None)
  ∨ (∃ cert s der err,
       c = VMap cert ∧ cert !! "rawBytes" = Some (VString s)
       ∧ Base64.DecodeString s = Some der
       ∧ x509_ParseCertificate der = inl err).

(** An authority entry that is not a mapping, or has no [certChain] mapping,
    or whose [certChain] has no [certificates] sequence. *)
Definition badEntry (entry : value) : Prop :=
  (∀ authorityData, entry ≠ VMap authorityData)
  ∨ (∃ authorityData,
       entry = VMap authorityData
       ∧ ∀ certChainData,
           authorityData !! "certChain" ≠ Some (VMap certChainData))
  ∨ (∃ authorityData certChainData,
       entry = VMap authorityData
       ∧ authorityData !! "certChain" = Some (VMap certChainData)
       ∧ ∀ certificates,
           certChainData !! "certificates" ≠ Some (VSlice certificates)).








(** Libraries for the examples: a certificate is accepted when it begins
    with the tag [0x30] of a DER sequence; every JSON file decodes to
    [exampleRoot] and every YAML file to [exampleTemplate]; a tree is
    written as the empty file. *)
Definition exampleCert : value :=
  VMap (<["rawBytes" := VString "MAA="]> ∅).

Definition exampleBadCert : value :=
  VMap (<["rawBytes" := VString "%%%"]> ∅).

Definition exampleEntry (certificates : list value) : value :=
  VMap (<["certChain" :=
           VMap (<["certificates" := VSlice certificates]> ∅)]> ∅).

Definition exampleRoot : gmap string value :=
  <["certificateAuthorities" :=
     VSlice [exampleEntry [exampleCert; exampleBadCert]]]> ∅.

Definition exampleTemplate : gmap string value :=
  <["spec" := VMap (<["sigstoreKeys" := VMap ∅]> ∅)]> ∅.

Definition exampleLibraries : Libraries := {|
  Certificate := unit;
  x509_ParseCertificate der :=
    match der with
    | x30 :: _ => inr tt
    | _ => inl (PkgError "x509" "malformed certificate")
    end;
  json_Decode _ := inr exampleRoot;
  yaml_Unmarshal _ := inr exampleTemplate;
  yaml_Marshal _ := inr []
|}.

Definition exampleWorld : World := {|
  files := <["trustroot.template.yaml" := []]>
             (<["~/.sigstore/root/targets/trusted_root.json" := []]> ∅);
  unreadable := ∅;
  unwritable := ∅;
  stderr := []
|}.

(** The six lines that [main] logs once the required flags are there. *)
Definition setupLines (flags : Flags) : list logLine :=
  [LogLine "Template File Path: %s" [AString (templateFilePath flags)];
   LogLine "Trusted Root Path: %s" [AString (trustedRootPath flags)];
   LogLine "Output Filename: %s" [AString (outputFilepath flags)];
   LogLine "Organization: %s" [AString (organization flags)];
   LogLine "Common Name: %s" [AString (commonName flags)];
   LogLine "URI: %s" [AString (uri flags)]].

(** What [main] needs to reach its loops: both required paths are given,
    the output path can be written, the template can be read once the output
    file has been emptied ([input] is what is read), and [trusted_root.json]
    can be read once the template has been copied ([data]) and decodes. *)
Definition setupOk `{L : Libraries} (flags : Flags) (w : World)
    (input data : list byte) (trustedRoot : gmap string value) : Prop :=
  templateFilePath flags ≠ EmptyString
  ∧ trustedRootPath flags ≠ EmptyString
  ∧ (outputFilepath flags ∉ unwritable w)
  ∧ (templateFilePath flags ∉ unreadable w)
  ∧ (trustedRootPath flags ∉ unreadable w)
  ∧ <[outputFilepath flags := []]> (files w) !! templateFilePath flags
    = Some input
  ∧ <[outputFilepath flags := input]> (files w) !! trustedRootPath flags
    = Some data
  ∧ json_Decode data = inr trustedRoot.

(** [w'] differs from [w] at most in the file [out] and in lines added to
    standard error. *)
Definition touchesOnly (out : string) (w w' : World) : Prop :=
  (∀ p : string, p ≠ out → files w' !! p = files w !! p)
  ∧ unreadable w' = unreadable w
  ∧ unwritable w' = unwritable w
  ∧ ∃ lines, stderr w' = stderr w ++ lines.

(** [lines] holds the line that [main] logs when the patch of the entry [x]
    at index [i] of the kind [authority] fails for a missing section; it
    says nothing of an entry without a certificate chain, which [main] does
    not patch. *)
Definition missingSectionLogged (authority : string) (i : Z) (x : value)
    (lines : list logLine) : Prop :=
  ∀ ad cd cs,
    x = VMap ad →
    ad !! "certChain" = Some (VMap cd) →
    cd !! "certificates" = Some (VSlice cs) →
    ∃ err,
      LogLine "Error updating YAML for %s[%d]: %v"
        [AString authority; AInt i; AErr err] ∈ lines
      ∧ (err = Errorf "missing 'spec' section in YAML" None
         ∨ err = Errorf "missing 'sigstoreKeys' section in YAML" None).

(** Libraries for an example in which the YAML document has no [spec]. *)
Definition exampleLibrariesNoSpec : Libraries := {|
  Certificate := unit;
  x509_ParseCertificate der :=
    match der with
    | x30 :: _ => inr tt
    | _ => inl (PkgError "x509" "malformed certificate")
    end;
  json_Decode _ := inr exampleRoot;
  yaml_Unmarshal _ := inr ∅;
  yaml_Marshal _ := inr []
|}.

(* ===================================================================== *)
(** * Properties *)
(* ===================================================================== *)

(** ** Strings *)

Lemma bytesOf_stringOf (b : list byte) : bytesOf (stringOf b) = b.
Proof. apply list_byte_of_string_of_list_byte. Qed.

Lemma stringOf_bytesOf (s : string) : stringOf (bytesOf s) = s.
Proof. apply string_of_list_byte_of_string. Qed.

Lemma append_cons (c : ascii) (s t : string) :
  String c s +:+ t = String c (s +:+ t).
Proof. reflexivity. Qed.

Lemma append_empty_r (s : string) : s +:+ EmptyString = s.
Proof.
  induction s as [|c s IH]; [reflexivity|].
  now rewrite append_cons, IH.
Qed.

Lemma append_assoc (s t u : string) : (s +:+ t) +:+ u = s +:+ (t +:+ u).
Proof.
  induction s as [|c s IH]; [reflexivity|].
  now rewrite !append_cons, IH.
Qed.

(** ** Base64: decoding undoes encoding *)

Module Base64Facts.
Import Base64.
#[local] Open Scope N_scope.

(** Bits below [k] of a number shifted left by [k] are free. *)
Lemma land_shiftl_low (h k l : N) : l < 2 ^ k → N.land (N.shiftl h k) l = 0.
Proof.
  intros Hl. apply N.bits_inj_0. intros n. rewrite N.land_spec.
  destruct (N.lt_ge_cases n k) as [Hn|Hn].
  - now rewrite N.shiftl_spec_low.
  - destruct (N.eq_dec l 0) as [->|Hne].
    + now rewrite N.bits_0, andb_false_r.
    + rewrite (N.bits_above_log2 l n), andb_false_r; [reflexivity|].
      apply N.lt_le_trans with k; [|assumption].
      apply N.log2_lt_pow2; lia.
Qed.

Lemma lor_shiftl_low (h k l : N) :
  l < 2 ^ k → N.lor (N.shiftl h k) l = h * 2 ^ k + l.
Proof.
  intros Hl. pose proof (land_shiftl_low h k l Hl) as H0.
  rewrite <- N.lxor_lor, <- N.add_nocarry_lxor, N.shiftl_mul_pow2; auto.
Qed.

(** The 24 bits built from three bytes, and from four sextets. *)
Lemma pack3 (x0 x1 x2 : N) :
  x1 < 256 → x2 < 256 →
  N.lor (N.lor (N.shiftl x0 16) (N.shiftl x1 8)) x2
  = x0 * 65536 + x1 * 256 + x2.
Proof.
  intros H1 H2.
  change 16 with (8 + 8). rewrite <- N.shiftl_shiftl, <- N.shiftl_lor.
  rewrite (lor_shiftl_low _ 8 x2) by (simpl; lia).
  rewrite (lor_shiftl_low _ 8 x1) by (simpl; lia).
  change (2 ^ 8) with 256. lia.
Qed.

Lemma pack4 (s0 s1 s2 s3 : N) :
  s1 < 64 → s2 < 64 → s3 < 64 →
  N.lor (N.lor (N.lor (N.shiftl s0 18) (N.shiftl s1 12)) (N.shiftl s2 6)) s3
  = s0 * 262144 + s1 * 4096 + s2 * 64 + s3.
Proof.
  intros H1 H2 H3.
  change 18 with (6 + 6 + 6). change 12 with (6 + 6).
  rewrite <- !N.shiftl_shiftl, <- !N.shiftl_lor.
  rewrite (lor_shiftl_low _ 6 s3) by (simpl; lia).
  rewrite (lor_shiftl_low _ 6 s2) by (simpl; lia).
  rewrite (lor_shiftl_low _ 6 s1) by (simpl; lia).
  change (2 ^ 6) with 64. lia.
Qed.

Lemma six_bits (val k : N) :
  N.land (N.shiftr val k) 63 = (val / 2 ^ k) mod 64.
Proof.
  change 63 with (N.ones 6).
  now rewrite N.land_ones, N.shiftr_div_pow2.
Qed.

Lemma six_bits_lt (val k : N) : N.land (N.shiftr val k) 63 < 64.
Proof. rewrite six_bits. apply N.mod_lt. lia. Qed.

Lemma byteOfN_to_N (b : byte) (n : N) : n mod 256 = Byte.to_N b → byteOfN n = b.
Proof. intros H. unfold byteOfN. now rewrite H, Byte.of_to_N. Qed.

Lemma to_N_lt (b : byte) : Byte.to_N b < 256.
Proof. pose proof (Byte.to_N_bounded b). lia. Qed.

(** The alphabet: [decodeMap] inverts [encode] on the 64 sextets. *)
Lemma decodeMap_encodeChar (v : N) : v < 64 → decodeMap (encodeChar v) = v.
Proof.
  intros Hv.
  destruct v as [|p]; [reflexivity|].
  do 6 (destruct p as [p|p|]; try reflexivity); lia.
Qed.

Lemma isNL_encodeChar (v : N) : v < 64 → isNL (encodeChar v) = false.
Proof.
  intros Hv.
  destruct v as [|p]; [reflexivity|].
  do 6 (destruct p as [p|p|]; try reflexivity); lia.
Qed.

Lemma decodeMap_sextet (val k : N) :
  decodeMap (sextet val k) = N.land (N.shiftr val k) 63.
Proof. apply decodeMap_encodeChar, six_bits_lt. Qed.

Lemma sextet_in_alphabet (val k : N) :
  negb (decodeMap (sextet val k) =? 255) = true.
Proof.
  rewrite decodeMap_sextet. pose proof (six_bits_lt val k).
  apply negb_true_iff, N.eqb_neq. lia.
Qed.

(** Division and remainder by constants, for [lia]. *)
Ltac divlia := zify; Z.to_euclidean_division_equations; lia.

Lemma sextets_sum (v : N) :
  v < 16777216 →
  (v / 262144) mod 64 * 262144 + (v / 4096) mod 64 * 4096
    + (v / 64) mod 64 * 64 + v mod 64 = v.
Proof. intros Hv. divlia. Qed.

Lemma bytes_split (x0 x1 x2 : N) :
  x0 < 256 → x1 < 256 → x2 < 256 →
  let v := x0 * 65536 + x1 * 256 + x2 in
  (v / 65536) mod 256 = x0 ∧ (v / 256) mod 256 = x1 ∧ v mod 256 = x2.
Proof. intros H0 H1 H2 v. subst v. divlia. Qed.

(** Packing the sextets of [v] gives [v] back when the low sextets that
    were not read are zero in [v]. *)
Lemma repack (v s2 s3 : N) :
  v < 16777216 →
  s2 = (v / 64) mod 64 → s3 = v mod 64 →
  N.lor (N.lor (N.lor (N.shiftl (N.land (N.shiftr v 18) 63) 18)
                      (N.shiftl (N.land (N.shiftr v 12) 63) 12))
               (N.shiftl s2 6)) s3 = v.
Proof.
  intros Hv -> ->.
  rewrite pack4; try apply six_bits_lt; try (apply N.mod_lt; lia).
  rewrite !six_bits.
  change (2 ^ 18) with 262144. change (2 ^ 12) with 4096.
  now apply sextets_sum.
Qed.

Lemma three_bytes (x0 x1 x2 : N) (b0 b1 b2 : byte) :
  x0 = Byte.to_N b0 → x1 = Byte.to_N b1 → x2 = Byte.to_N b2 →
  let v := x0 * 65536 + x1 * 256 + x2 in
  [byteOfN (N.shiftr v 16); byteOfN (N.shiftr v 8); byteOfN v]
  = [b0; b1; b2].
Proof.
  intros -> -> -> v.
  destruct (bytes_split _ _ _ (to_N_lt b0) (to_N_lt b1) (to_N_lt b2))
    as (E0 & E1 & E2).
  fold v in E0, E1, E2.
  rewrite !N.shiftr_div_pow2.
  f_equal; [|f_equal; [|f_equal]]; now apply byteOfN_to_N.
Qed.

(** The bytes that come back from the sextets of one block. *)
Lemma quantum3 (b0 b1 b2 : byte) :
  let val := N.lor (N.lor (N.shiftl (Byte.to_N b0) 16)
                          (N.shiftl (Byte.to_N b1) 8)) (Byte.to_N b2) in
  quantumBytes [N.land (N.shiftr val 18) 63; N.land (N.shiftr val 12) 63;
                N.land (N.shiftr val 6) 63; N.land (N.shiftr val 0) 63] 4
  = [b0; b1; b2].
Proof.
  intros val. unfold quantumBytes. cbn [nth Nat.sub take].
  pose proof (to_N_lt b0). pose proof (to_N_lt b1). pose proof (to_N_lt b2).
  assert (Hval : val = Byte.to_N b0 * 65536 + Byte.to_N b1 * 256
                       + Byte.to_N b2)
    by (subst val; now apply pack3).
  rewrite repack.
  - rewrite Hval. now apply three_bytes.
  - lia.
  - apply six_bits.
  - rewrite six_bits. change (2 ^ 0) with 1. now rewrite N.div_1_r.
Qed.

Lemma quantum2 (b0 b1 : byte) :
  let val := N.lor (N.shiftl (Byte.to_N b0) 16)
                   (N.shiftl (Byte.to_N b1) 8) in
  quantumBytes [N.land (N.shiftr val 18) 63; N.land (N.shiftr val 12) 63;
                N.land (N.shiftr val 6) 63] 3
  = [b0; b1].
Proof.
  intros val. unfold quantumBytes. cbn [nth Nat.sub take].
  pose proof (to_N_lt b0). pose proof (to_N_lt b1).
  assert (Hval : val = Byte.to_N b0 * 65536 + Byte.to_N b1 * 256 + 0).
  { subst val. rewrite <- pack3 by lia. now rewrite N.lor_0_r. }
  rewrite repack.
  - pose proof (three_bytes _ _ _ b0 b1 x00 eq_refl eq_refl eq_refl) as E.
    cbv zeta in E. change (Byte.to_N x00) with 0 in E. rewrite <- Hval in E.
    now injection E as -> ->.
  - lia.
  - apply six_bits.
  - rewrite Hval. divlia.
Qed.

Lemma quantum1 (b0 : byte) :
  let val := N.shiftl (Byte.to_N b0) 16 in
  quantumBytes [N.land (N.shiftr val 18) 63; N.land (N.shiftr val 12) 63] 2
  = [b0].
Proof.
  intros val. unfold quantumBytes. cbn [nth Nat.sub take].
  pose proof (to_N_lt b0).
  assert (Hval : val = Byte.to_N b0 * 65536 + 0 * 256 + 0).
  { subst val. rewrite N.shiftl_mul_pow2. change (2 ^ 16) with 65536. lia. }
    rewrite repack.
  - pose proof (three_bytes _ _ _ b0 x00 x00 eq_refl eq_refl eq_refl) as E.
    cbv zeta in E. change (Byte.to_N x00) with 0 in E. rewrite <- Hval in E.
    now injection E as ->.
  - lia.
  - rewrite Hval. divlia.
  - rewrite Hval. divlia.
Qed.

(** One step of the decoder on a character of the alphabet. *)
Lemma decodeFrom_char (c : ascii) (rest : string) (dbuf : list N) :
  negb (decodeMap c =? 255) = true →
  decodeFrom (String c rest) dbuf
  = if (length (dbuf ++ [decodeMap c]) =? 4)%nat
    then app (quantumBytes (dbuf ++ [decodeMap c]) 4) <$> decodeFrom rest []
    else decodeFrom rest (dbuf ++ [decodeMap c]).
Proof. intros H. cbn [decodeFrom]. now rewrite H. Qed.

Lemma decodeFrom_sextet (val k : N) (rest : string) (dbuf : list N) :
  decodeFrom (String (sextet val k) rest) dbuf
  = if (length (dbuf ++ [N.land (N.shiftr val k) 63]) =? 4)%nat
    then app (quantumBytes (dbuf ++ [N.land (N.shiftr val k) 63]) 4)
           <$> decodeFrom rest []
    else decodeFrom rest (dbuf ++ [N.land (N.shiftr val k) 63]).
Proof.
  rewrite decodeFrom_char by apply sextet_in_alphabet.
  now rewrite decodeMap_sextet.
Qed.

(** What the decoder does on the padding character. *)
Lemma decodeFrom_pad (rest : string) (dbuf : list N) :
  decodeFrom (String padChar rest) dbuf
  = match length dbuf with
    | 0%nat | 1%nat => None
    | 2%nat =>
        match skipNL rest with
        | EmptyString => None
        | String c' rest' =>
            if Ascii.eqb c' padChar then
              match skipNL rest' with
              | EmptyString => Some (quantumBytes dbuf 2)
              | String _ _ => None
              end
            else None
        end
    | _ =>
        match skipNL rest with
        | EmptyString => Some (quantumBytes dbuf (length dbuf))
        | String _ _ => None
        end
    end.
Proof. reflexivity. Qed.

(** Induction on a list three elements at a time, as the encoder reads it. *)
Lemma list_ind3 {A : Type} (P : list A → Prop) :
  P [] → (∀ a, P [a]) → (∀ a b, P [a; b]) →
  (∀ a b c l, P l → P (a :: b :: c :: l)) →
  ∀ l, P l.
Proof.
  intros H0 H1 H2 H3.
  refine (fix F (l : list A) : P l :=
            match l with
            | [] => H0
            | [a] => H1 a
            | [a; b] => H2 a b
            | a :: b :: c :: l' => H3 a b c l' (F l')
            end).
Qed.

(** [DecodeString(EncodeToString(src))] returns [src]. *)
Lemma decodeFrom_EncodeToString (src : list byte) :
  decodeFrom (EncodeToString src) [] = Some src.
Proof.
  induction src as [|b0|b0 b1|b0 b1 b2 rest IH] using list_ind3;
    cbn [EncodeToString]; cbv zeta;
    repeat (rewrite decodeFrom_sextet; cbn [app length Nat.eqb]).
  - reflexivity.
  - rewrite decodeFrom_pad. cbn [length skipNL].
    change (isNL padChar) with false. cbv iota.
    change (Ascii.eqb padChar padChar) with true. cbv iota.
    now rewrite quantum1.
  - rewrite decodeFrom_pad. cbn [length skipNL]. now rewrite quantum2.
  - rewrite quantum3, IH. reflexivity.
Qed.

Theorem DecodeString_EncodeToString (src : list byte) :
  DecodeString (EncodeToString src) = Some src.
Proof. apply decodeFrom_EncodeToString. Qed.

(** *** The decoder does not see line breaks *)

Lemma isNL_decodeMap (c : ascii) : isNL c = true → decodeMap c = 255.
Proof.
  unfold isNL. intros H. apply orb_true_iff in H as [H|H];
    apply Ascii.eqb_eq in H; subst c; reflexivity.
Qed.

(** After [skipNL] the text is empty or begins with a character that is not
    a line break. *)
Lemma skipNL_cases (s : string) :
  (skipNL s = EmptyString ∧ stripNL s = EmptyString)
  ∨ (∃ c r, skipNL s = String c r ∧ isNL c = false
            ∧ stripNL s = String c (stripNL r)).
Proof.
  induction s as [|c s IH]; [now left|].
  cbn [skipNL stripNL]. destruct (isNL c) eqn:E; [exact IH|].
  right. exists c, s. now rewrite E.
Qed.

Lemma skipNL_stripNL (s : string) : skipNL (stripNL s) = stripNL s.
Proof.
  induction s as [|c s IH]; [reflexivity|].
  cbn [stripNL]. destruct (isNL c) eqn:E; [exact IH|].
  cbn [skipNL]. now rewrite E.
Qed.

Lemma skipNL_end_stripNL {A : Type} (s : string) (x y : A) :
  match skipNL (stripNL s) with EmptyString => x | String _ _ => y end
  = match skipNL s with EmptyString => x | String _ _ => y end.
Proof.
  rewrite skipNL_stripNL.
  destruct (skipNL_cases s) as [[-> ->]|(c & r & -> & _ & ->)]; reflexivity.
Qed.

Lemma decodeFrom_stripNL (s : string) (dbuf : list N) :
  decodeFrom (stripNL s) dbuf = decodeFrom s dbuf.
Proof.
  revert dbuf. induction s as [|c s IH]; intros dbuf; [reflexivity|].
  cbn [stripNL]. destruct (isNL c) eqn:E.
  - rewrite IH. cbn [decodeFrom]. now rewrite (isNL_decodeMap c E), E.
  - cbn [decodeFrom]. rewrite E, !IH.
    destruct (negb (decodeMap c =? 255)); [reflexivity|].
    destruct (negb (Ascii.eqb c padChar)); [reflexivity|].
    destruct (length dbuf) as [|[|[|n]]]; try reflexivity.
    + rewrite skipNL_stripNL.
      destruct (skipNL_cases s) as [[-> ->]|(c' & r & -> & _ & ->)];
        [reflexivity|].
      destruct (Ascii.eqb c' padChar); [|reflexivity].
      apply skipNL_end_stripNL.
    + apply skipNL_end_stripNL.
Qed.

(** The encoder writes no line break. *)
Lemma stripNL_EncodeToString (src : list byte) :
  stripNL (EncodeToString src) = EncodeToString src.
Proof.
  assert (Hs : ∀ val k, isNL (sextet val k) = false)
    by (intros; apply isNL_encodeChar, six_bits_lt).
  induction src as [|b0|b0 b1|b0 b1 b2 rest IH] using list_ind3;
    cbn [EncodeToString]; cbv zeta; cbn [stripNL]; rewrite ?Hs;
    [reflexivity| | |now rewrite IH];
    now change (isNL padChar) with false.
Qed.

End Base64Facts.

(** ** The update of the tree *)

Section UpdateTree.

Implicit Types (root spec sk entry : gmap string value) (l : list value).
Implicit Types (authority o c u cc : string) (index : Z).

Lemma len_app l x : len (l ++ [x]) = len l + 1.
Proof. unfold len. rewrite length_app. simpl. lia. Qed.

Lemma growLoop_replicate (fuel : nat) l index :
  fuel = Z.to_nat (index + 1 - len l) →
  growLoop fuel l index = l ++ replicate fuel (VMap ∅).
Proof.
  revert l. induction fuel as [|fuel IH]; intros l Hfuel; cbn [growLoop].
  - now rewrite app_nil_r.
  - assert (Hle : (len l <=? index) = true) by (apply Z.leb_le; lia).
    rewrite Hle, IH by (rewrite len_app; lia).
    now rewrite <- app_assoc.
Qed.

(** The loop appends as many empty mappings as are missing. *)
Lemma grow_replicate l index :
  grow l index = l ++ replicate (Z.to_nat (index + 1 - len l)) (VMap ∅).
Proof. now apply growLoop_replicate. Qed.

(** The turns given to the loop are enough: its condition is false when it
    stops. *)
Lemma grow_exit l index : (len (grow l index) <=? index) = false.
Proof.
  rewrite grow_replicate. apply Z.leb_gt.
  unfold len. rewrite length_app, length_replicate. unfold len. lia.
Qed.

Lemma grow_long l index : index < len l → grow l index = l.
Proof.
  intros H. rewrite grow_replicate.
  replace (Z.to_nat (index + 1 - len l)) with 0%nat by lia.
  apply app_nil_r.
Qed.

Lemma length_grow l index :
  Z.of_nat (length (grow l index)) = Z.max (len l) (index + 1).
Proof.
  rewrite grow_replicate, length_app, length_replicate. unfold len. lia.
Qed.

Lemma length_patchedList l index o c u cc :
  length (patchedList l index o c u cc) = length (grow l index).
Proof. apply length_insert. Qed.

(** On a document with [spec.sigstoreKeys] and for an index that is not
    negative, the update succeeds. *)
Lemma updateTree_Ok root spec sk authority index o c u cc :
  root !! "spec" = Some (VMap spec) →
  spec !! "sigstoreKeys" = Some (VMap sk) →
  0 ≤ index →
  updateTree root authority index o c u cc
  = Ok (patchedRoot root spec sk authority
          (patchedList (initialList sk authority index) index o c u cc)).
Proof.
  intros Hspec Hsk Hidx. unfold updateTree. rewrite Hspec, Hsk.
  assert (H1 : (index + 1 <? 0) = false) by (apply Z.ltb_ge; lia).
  assert (H2 : (index <? 0) = false) by (apply Z.ltb_ge; lia).
  unfold patchedRoot, patchedList, entryFields, initialList.
  destruct (sk !! authority) as [[]|]; rewrite ?H1, H2; reflexivity.
Qed.

(** A successful update was of that kind. *)
Lemma updateTree_inv root root' authority index o c u cc :
  updateTree root authority index o c u cc = Ok root' →
  ∃ spec sk,
    root !! "spec" = Some (VMap spec)
    ∧ spec !! "sigstoreKeys" = Some (VMap sk)
    ∧ 0 ≤ index
    ∧ root' = patchedRoot root spec sk authority
                (patchedList (initialList sk authority index) index o c u cc).
Proof.
  intros H.
  destruct (root !! "spec") as [[| | | | | |spec|]|] eqn:Hspec;
    try (unfold updateTree in H; rewrite Hspec in H; discriminate).
  destruct (spec !! "sigstoreKeys") as [[| | | | | |sk|]|] eqn:Hsk;
    try (unfold updateTree in H; rewrite Hspec, Hsk in H; discriminate).
  destruct (Z.lt_ge_cases index 0) as [Hneg|Hpos].
  - exfalso. unfold updateTree in H. rewrite Hspec, Hsk in H.
    assert (H2 : (index <? 0) = true) by (apply Z.ltb_lt; lia).
    destruct (sk !! authority) as [[]|]; rewrite ?H2 in H;
      try destruct (index + 1 <? 0); discriminate.
  - exists spec, sk. repeat split; try assumption.
    rewrite (updateTree_Ok _ _ _ _ _ _ _ _ _ Hspec Hsk Hpos) in H.
    now injection H as <-.
Qed.

(** Reading the patched document. *)
Lemma sigstoreKeysOf_patchedRoot root spec sk authority l :
  sigstoreKeysOf (patchedRoot root spec sk authority l)
  = Some (<[authority := VSlice l]> sk).
Proof.
  unfold sigstoreKeysOf, patchedRoot. now rewrite !lookup_insert_eq.
Qed.

Lemma authorityListOf_patchedRoot root spec sk authority l :
  authorityListOf (patchedRoot root spec sk authority l) authority = Some l.
Proof.
  unfold authorityListOf.
  now rewrite sigstoreKeysOf_patchedRoot, lookup_insert_eq.
Qed.

Lemma sigstoreKeysOf_Some root sk :
  sigstoreKeysOf root = Some sk ↔
  ∃ spec, root !! "spec" = Some (VMap spec)
          ∧ spec !! "sigstoreKeys" = Some (VMap sk).
Proof.
  unfold sigstoreKeysOf. split.
  - destruct (root !! "spec") as [[| | | | | |spec|]|]; try discriminate.
    destruct (spec !! "sigstoreKeys") as [[| | | | | |sk'|]|] eqn:E;
      try discriminate.
    intros [= <-]. now exists spec.
  - intros (spec & -> & ->). reflexivity.
Qed.

Lemma authorityListOf_Some root authority l :
  authorityListOf root authority = Some l ↔
  ∃ sk, sigstoreKeysOf root = Some sk ∧ sk !! authority = Some (VSlice l).
Proof.
  unfold authorityListOf. split.
  - destruct (sigstoreKeysOf root) as [sk|]; try discriminate.
    destruct (sk !! authority) as [[| | | | |l'| |]|] eqn:E; try discriminate.
    intros [= <-]. now exists sk.
  - intros (sk & -> & ->). reflexivity.
Qed.

(** The elements of the patched sequence. *)
Lemma patchedList_lookup_index l index o c u cc :
  0 ≤ index →
  patchedList l index o c u cc !! Z.to_nat index
  = Some (VMap (setFields o c u cc
                  (entryFields (grow l index) (Z.to_nat index)))).
Proof.
  intros H. unfold patchedList. apply list_lookup_insert_eq.
  pose proof (length_grow l index). lia.
Qed.

Lemma patchedList_lookup_old l index o c u cc (j : nat) :
  j ≠ Z.to_nat index → (j < length l)%nat →
  patchedList l index o c u cc !! j = l !! j.
Proof.
  intros Hne Hlt. unfold patchedList.
  rewrite list_lookup_insert_ne by congruence.
  rewrite grow_replicate. now apply lookup_app_l.
Qed.

Lemma patchedList_lookup_new l index o c u cc (j : nat) :
  (length l ≤ j)%nat → Z.of_nat j < index →
  patchedList l index o c u cc !! j = Some (VMap ∅).
Proof.
  intros Hge Hlt. unfold patchedList.
  rewrite list_lookup_insert_ne by lia.
  rewrite grow_replicate, lookup_app_r by assumption.
  apply lookup_replicate_2. unfold len. lia.
Qed.

Lemma setFields_idemp o c u cc entry :
  setFields o c u cc (setFields o c u cc entry) = setFields o c u cc entry.
Proof.
  apply map_eq. intros k. unfold setFields.
  rewrite !lookup_insert. repeat case_decide; reflexivity.
Qed.


Lemma patchedList_idemp l index o c u cc :
  0 ≤ index →
  patchedList (patchedList l index o c u cc) index o c u cc
  = patchedList l index o c u cc.
Proof.
  intros H. set (l1 := patchedList l index o c u cc).
  assert (Hlen : index < len l1).
  { unfold len, l1. rewrite length_patchedList.
    pose proof (length_grow l index). lia. }
  unfold patchedList at 1. rewrite (grow_long l1) by assumption.
  unfold entryFields. unfold l1 at 1.
  rewrite patchedList_lookup_index by assumption.
  rewrite setFields_idemp. apply list_insert_id.
  unfold l1. now apply patchedList_lookup_index.
Qed.

End UpdateTree.

(** ** Claims on [updateYAML] *)

(** When [spec.sigstoreKeys.<authority>] is not a sequence, the fresh
    sequence is [make([]interface{}, index+1)]: its positions below [index]
    hold [nil]. *)
Lemma updateYAML_fresh_sequence (root sk : gmap string value)
    (authority : string) (index : Z) (o c u cc : string) :
  sigstoreKeysOf root = Some sk →
  (∀ l, sk !! authority ≠ Some (VSlice l)) →
  0 ≤ index →
  ∃ root' l',
    updateTree root authority index o c u cc = Ok root'
    ∧ authorityListOf root' authority = Some l'
    ∧ len l' = index + 1
    ∧ ∀ j : nat, Z.of_nat j < index → l' !! j = Some VNil.
Proof.
  intros Hsk Hno Hidx.
  apply sigstoreKeysOf_Some in Hsk as (spec & Hspec & Hsk).
  eexists _, _.
  split; [apply (updateTree_Ok _ _ _ _ _ _ _ _ _ Hspec Hsk Hidx)|].
  split; [apply authorityListOf_patchedRoot|].
  assert (Hinit : initialList sk authority index
                  = replicate (Z.to_nat (index + 1)) VNil).
  { unfold initialList.
    destruct (sk !! authority) as [[| | | | |l| |]|]; try reflexivity.
    now destruct (Hno l). }
  rewrite Hinit. split.
  - unfold len. rewrite length_patchedList.
    pose proof (length_grow (replicate (Z.to_nat (index + 1)) VNil) index)
      as Hg.
    unfold len in Hg. rewrite length_replicate in Hg. lia.
  - intros j Hj. rewrite patchedList_lookup_old.
    + apply lookup_replicate_2. lia.
    + lia.
    + rewrite length_replicate. lia.
Qed.

(** C1 (the code departs from the claim): on the template
    [spec: {sigstoreKeys: {}}], [updateYAML] for index 1 of
    [certificateAuthorities] makes a fresh sequence of length 2 whose
    position 0 holds [nil], not an empty mapping. *)
Theorem updateYAML_fresh_sequence_pads_nil :
  ∃ root' entry,
    updateTree exampleTemplate "certificateAuthorities" 1
      "GitHub, Inc." "Internal Services Root" "https://fulcio.githubapp.com"
      EmptyString = Ok root'
    ∧ authorityListOf root' "certificateAuthorities"
      = Some [VNil; VMap entry]
    ∧ VNil ≠ VMap ∅.
Proof.
  eexists _, _. split; [|split].
  - apply (updateTree_Ok exampleTemplate
             (<["sigstoreKeys" := VMap ∅]> ∅) ∅); [reflexivity..|lia].
  - rewrite authorityListOf_patchedRoot. reflexivity.
  - discriminate.
Qed.

(** C2: for an existing sequence [l] at [spec.sigstoreKeys.<authority>] and
    an index [k] with [len l < k + 1], [updateYAML] succeeds on the tree and
    leaves a sequence of length exactly [k + 1], whose positions below
    [len l] hold the elements of [l] unchanged and whose positions from
    [len l] to [k - 1] hold empty mappings. *)
Theorem updateYAML_grows (root : gmap string value) (authority : string)
    (index : Z) (o c u cc : string) (l : list value) :
  authorityListOf root authority = Some l →
  len l < index + 1 →
  ∃ root' l',
    updateTree root authority index o c u cc = Ok root'
    ∧ authorityListOf root' authority = Some l'
    ∧ grownFrom l l' index.
Proof.
  intros Hl Hlen.
  apply authorityListOf_Some in Hl as (sk & Hsk & Hl).
  apply sigstoreKeysOf_Some in Hsk as (spec & Hspec & Hsk).
  assert (Hidx : 0 ≤ index) by (unfold len in Hlen; lia).
  eexists _, _.
  split; [apply (updateTree_Ok _ _ _ _ _ _ _ _ _ Hspec Hsk Hidx)|].
  split; [apply authorityListOf_patchedRoot|].
  unfold initialList. rewrite Hl. repeat split.
  - unfold len. rewrite length_patchedList.
    pose proof (length_grow l index). lia.
  - intros j Hj. apply patchedList_lookup_old; [|assumption].
    unfold len in Hlen. lia.
  - intros j Hge Hlt. now apply patchedList_lookup_new.
Qed.

Lemma updateYAML_grows_witness :
  let root : gmap string value :=
    <["spec" := VMap (<["sigstoreKeys" :=
        VMap (<["timestampAuthorities" := VSlice [VString "a"]]> ∅)]> ∅)]> ∅
  in
  authorityListOf root "timestampAuthorities" = Some [VString "a"]
  ∧ len [VString "a"] < 3 + 1
  ∧ ∃ root' l',
      updateTree root "timestampAuthorities" 3 "o" "c" "u" "x" = Ok root'
      ∧ authorityListOf root' "timestampAuthorities" = Some l'
      ∧ grownFrom [VString "a"] l' 3.
Proof.
  intros root. split; [reflexivity|]. split; [reflexivity|].
  apply (updateYAML_grows root "timestampAuthorities" 3 "o" "c" "u" "x"
           [VString "a"]); reflexivity.
Defined.

(** C7: a second [updateYAML] with the same arguments on the tree that the
    first one left changes nothing; the trees are equal as mappings, where
    the order of the keys does not count. *)
Theorem updateYAML_idempotent (root root' : gmap string value)
    (authority : string) (index : Z) (o c u cc : string) :
  updateTree root authority index o c u cc = Ok root' →
  updateTree root' authority index o c u cc = Ok root'.
Proof.
  intros H.
  apply updateTree_inv in H as (spec & sk & Hspec & Hsk & Hidx & ->).
  pose proof (patchedList_idemp (initialList sk authority index) index
                o c u cc Hidx) as HL.
  set (L := patchedList (initialList sk authority index) index o c u cc) in *.
  rewrite (updateTree_Ok (patchedRoot root spec sk authority L)
             (<["sigstoreKeys" := VMap (<[authority := VSlice L]> sk)]> spec)
             (<[authority := VSlice L]> sk));
    [|apply lookup_insert_eq..|assumption].
  f_equal.
  assert (Hinit : initialList (<[authority := VSlice L]> sk) authority index
                  = L) by (unfold initialList; now rewrite lookup_insert_eq).
  rewrite Hinit, HL. unfold patchedRoot. now rewrite !insert_insert_eq.
Qed.

Lemma updateYAML_idempotent_witness :
  ∃ root',
    updateTree exampleTemplate "certificateAuthorities" 1 "o" "c" "u" "x"
    = Ok root'
    ∧ updateTree root' "certificateAuthorities" 1 "o" "c" "u" "x" = Ok root'.
Proof.
  eexists. split.
  - apply (updateTree_Ok exampleTemplate
             (<["sigstoreKeys" := VMap ∅]> ∅) ∅); [reflexivity..|lia].
  - apply (updateYAML_idempotent exampleTemplate).
    apply (updateTree_Ok exampleTemplate
             (<["sigstoreKeys" := VMap ∅]> ∅) ∅); [reflexivity..|lia].
Defined.




(** ** PEM blocks *)

Module PemFacts.
Import Base64 Base64Facts Pem.

Lemma stripNL_lineBreaker (used : nat) (s : string) :
  stripNL (lineBreaker used s) = stripNL s.
Proof.
  revert used. induction s as [|c s IH]; intros used; cbn [lineBreaker].
  - now destruct (used =? 0)%nat.
  - destruct (S used =? pemLineLength)%nat; cbn [stripNL]; rewrite ?IH.
    + change (isNL newline) with true. cbv iota. now rewrite ?IH.
    + reflexivity.
Qed.

(** The body of a block, line breaks and all, decodes to the bytes of the
    block. *)
Lemma DecodeString_lineBreaker (b : list byte) :
  DecodeString (lineBreaker 0 (EncodeToString b)) = Some b.
Proof.
  unfold DecodeString.
  rewrite <- decodeFrom_stripNL, stripNL_lineBreaker, stripNL_EncodeToString.
  apply decodeFrom_EncodeToString.
Qed.

Lemma Encode_CERTIFICATE (b : list byte) :
  Encode {| Type_ := "CERTIFICATE"; Bytes := b |}
  = beginCertificate +:+ nl +:+ lineBreaker 0 (EncodeToString b)
      +:+ endCertificate +:+ nl.
Proof. reflexivity. Qed.

Lemma Encode_prefix_suffix (b : list byte) :
  HasPrefix (Encode {| Type_ := "CERTIFICATE"; Bytes := b |}) beginCertificate
  ∧ HasSuffix (Encode {| Type_ := "CERTIFICATE"; Bytes := b |})
      (endCertificate +:+ nl).
Proof.
  rewrite Encode_CERTIFICATE. split.
  - now eexists.
  - exists (beginCertificate +:+ nl +:+ lineBreaker 0 (EncodeToString b)).
    now rewrite !append_assoc.
Qed.

End PemFacts.

(** ** [convertToPEM] *)

(** C10: [convertToPEM] succeeds exactly when [x509.ParseCertificate]
    accepts the bytes, and then the text between the [BEGIN CERTIFICATE] and
    [END CERTIFICATE] lines of the block it returns decodes from base64 to
    the very bytes it was given. *)
Theorem convertToPEM_spec `{L : Libraries} (cert : list byte) :
  ((∃ pem, convertToPEM cert = Ok pem)
   ↔ (∃ parsed, x509_ParseCertificate cert = inr parsed))
  ∧ ∀ pem, convertToPEM cert = Ok pem →
      ∃ body,
        pem = beginCertificate +:+ nl +:+ body +:+ endCertificate +:+ nl
        ∧ Base64.DecodeString body = Some cert.
Proof.
  unfold convertToPEM.
  destruct (x509_ParseCertificate cert) as [err|parsed]; split.
  - split; [intros [pem H]|intros [p H]]; discriminate.
  - intros pem H. discriminate.
  - split; intros _; eexists; reflexivity.
  - intros pem [= <-]. eexists. split.
    + apply PemFacts.Encode_CERTIFICATE.
    + apply PemFacts.DecodeString_lineBreaker.
Qed.

Lemma convertToPEM_spec_witness :
  let cert := [x30; x03; x02; x01; x00] in
  ∃ pem,
    convertToPEM (L := exampleLibraries) cert = Ok pem
    ∧ ∃ body,
        pem = beginCertificate +:+ nl +:+ body +:+ endCertificate +:+ nl
        ∧ Base64.DecodeString body = Some cert.
Proof.
  intros cert. eexists. split; [reflexivity|].
  apply (proj2 (convertToPEM_spec (L := exampleLibraries) cert)).
  reflexivity.
Defined.

(** ** The process *)

Section Process.

Context {L : Libraries}.

Lemma addLogs_nil (w : World) : addLogs [] w = w.
Proof. destruct w. unfold addLogs. cbn. now rewrite app_nil_r. Qed.

Lemma addLogs_addLog (l : logLine) (ls : list logLine) (w : World) :
  addLogs ls (addLog l w) = addLogs (l :: ls) w.
Proof. unfold addLogs, addLog. cbn. now rewrite <- app_assoc. Qed.

Lemma addLog_addLogs (l : logLine) (w : World) : addLog l w = addLogs [l] w.
Proof. reflexivity. Qed.

Lemma ReadFile_addLogs (name : string) (ls : list logLine) (w : World) :
  ReadFile name (addLogs ls w) = ReadFile name w.
Proof. reflexivity. Qed.

(** *** Entries that are skipped *)

Lemma entryBody_bad (flags : Flags) (authority : string) (i : Z)
    (entry : value) (w : World) :
  badEntry entry →
  ∃ fmt,
    entryBody flags authority i entry tt w
    = (addLog (LogLine fmt [AString authority; AInt i]) w, Done tt).
Proof.
  intros [H|[(ad & -> & H)|(ad & cd & -> & Hcd & H)]].
  - destruct entry; try (eexists; reflexivity). now destruct (H m).
  - cbn [entryBody].
    destruct (ad !! "certChain") as [[| | | | | |cd|]|];
      try (eexists; reflexivity).
    now destruct (H cd).
  - cbn [entryBody]. rewrite Hcd.
    destruct (cd !! "certificates") as [[| | | | |cs| |]|];
      try (eexists; reflexivity).
    now destruct (H cs).
Qed.

(** C5: an authority entry that is not a mapping, or has no [certChain]
    mapping, or no [certificates] sequence, does not end the run: one line is
    logged, the files are left as they were (no patch is written), and the
    loop goes on with the next entry. *)
Theorem bad_entry_skipped (flags : Flags) (authority : string) (i : Z)
    (entry : value) (rest : list value) (w : World) :
  badEntry entry →
  ∃ line w',
    entryBody flags authority i entry tt w = (w', Done tt)
    ∧ w' = addLog line w
    ∧ files w' = files w
    ∧ forEach (entryBody flags authority) i (entry :: rest) tt w
      = forEach (entryBody flags authority) (i + 1) rest tt w'.
Proof.
  intros H.
  destruct (entryBody_bad flags authority i entry w H) as [fmt E].
  eexists _, _. split; [exact E|]. split; [reflexivity|].
  split; [reflexivity|].
  cbn [forEach]. unfold bind. now rewrite E.
Qed.

(** *** The required flags *)

(** C4: when the template path or the trusted-root path is empty, [main]
    ends through [log.Fatalf] with status 1, and the files are those it was
    started with: no output file has been written or created. *)
Theorem missing_flag_fatal (flags : Flags) (w : World) :
  templateFilePath flags = EmptyString ∨ trustedRootPath flags = EmptyString →
  ∃ w',
    main flags w = (w', Exited 1)
    ∧ exitCode (main flags w) = 1
    ∧ files w' = files w.
Proof.
  intros H. unfold main, setup, bind, exitCode.
  destruct (String.eqb_spec (templateFilePath flags) EmptyString) as [E1|N1].
  - eexists. cbn. repeat split; reflexivity.
  - destruct H as [H|H]; [contradiction|].
    rewrite H. cbn. eexists. repeat split; reflexivity.
Qed.

(** *** The certificates of one chain *)

Lemma badCertificate_transcode (c : value) :
  badCertificate c ↔ transcode c = None.
Proof.
  unfold badCertificate, transcode. split.
  - intros [H|[(cert & -> & H)|[(cert & s & -> & Hs & Hd)
                               |(cert & s & der & err & -> & Hs & Hd & Hp)]]].
    + destruct c; try reflexivity. now destruct (H m).
    + destruct (cert !! "rawBytes") as [[| | | |s| | |]|]; try reflexivity.
      now destruct (H s).
    + now rewrite Hs, Hd.
    + now rewrite Hs, Hd, Hp.
  - destruct c as [| | | | | |cert|]; try (left; intros cert' ?; discriminate).
    intros H. right.
    destruct (cert !! "rawBytes") as [[| | | |s| | |]|] eqn:Hs;
      try (left; exists cert; split; [reflexivity|intros s' ?; congruence]).
    right. destruct (Base64.DecodeString s) as [der|] eqn:Hd.
    + right. destruct (x509_ParseCertificate der) as [err|p] eqn:Hp;
        [|discriminate].
      now exists cert, s, der, err.
    + left. now exists cert, s.
Qed.

(** A certificate that transcodes adds its block and logs nothing. *)
Lemma certBody_good (authority : string) (i j : Z) (c : value)
    (pemData pem : string) (w : World) :
  transcode c = Some pem →
  certBody authority i j c pemData w = (w, Done (pemData +:+ pem)).
Proof.
  unfold transcode, certBody, convertToPEM. intros H.
  destruct c as [| | | | | |cert|]; try discriminate.
  destruct (cert !! "rawBytes") as [[| | | |s| | |]|]; try discriminate.
  destruct (Base64.DecodeString s) as [der|]; try discriminate.
  destruct (x509_ParseCertificate der); try discriminate.
  now injection H as <-.
Qed.

(** A certificate that does not is logged with its position and adds
    nothing. *)
Lemma certBody_bad (authority : string) (i j : Z) (c : value)
    (pemData : string) (w : World) :
  transcode c = None →
  ∃ fmt more,
    certBody authority i j c pemData w
    = (addLog (LogLine fmt (AString authority :: AInt i :: AInt j :: more)) w,
       Done pemData).
Proof.
  unfold transcode, certBody, convertToPEM. intros H.
  destruct c as [| | | | | |cert|]; try (eexists _, _; reflexivity).
  destruct (cert !! "rawBytes") as [[| | | |s| | |]|];
    try (eexists _, _; reflexivity).
  destruct (Base64.DecodeString s) as [der|];
    try (eexists _, _; reflexivity).
  destruct (x509_ParseCertificate der); try discriminate.
  eexists _, _; reflexivity.
Qed.

Lemma pemBlocks_cons (c : value) (cs : list value) :
  pemBlocks (c :: cs)
  = match transcode c with
    | Some pem => pem :: pemBlocks cs
    | None => pemBlocks cs
    end.
Proof. reflexivity. Qed.

Lemma pemBlocks_app (cs1 cs2 : list value) :
  pemBlocks (cs1 ++ cs2) = pemBlocks cs1 ++ pemBlocks cs2.
Proof.
  induction cs1 as [|c cs1 IH]; [reflexivity|].
  rewrite <- app_comm_cons, !pemBlocks_cons, IH.
  now destruct (transcode c).
Qed.

(** The loop over the certificates never leaves the process and touches
    no file: it builds the concatenation of the blocks of the certificates
    that transcode, in the order of the chain, and logs one line for each of
    the others. *)
Lemma certLoop_spec (authority : string) (i : Z) (certificates : list value) :
  ∀ (j : Z) (pemData : string) (w : World),
  ∃ lines,
    forEach (certBody authority i) j certificates pemData w
    = (addLogs lines w, Done (pemData +:+ joinAll (pemBlocks certificates)))
    ∧ ∀ (k : nat) (c : value),
        certificates !! k = Some c → transcode c = None →
        ∃ fmt more,
          LogLine fmt (AString authority :: AInt i
                         :: AInt (j + Z.of_nat k) :: more) ∈ lines.
Proof.
  induction certificates as [|c cs IH]; intros j pemData w.
  - exists []. cbn [forEach]. unfold ret. rewrite addLogs_nil.
    split; [now rewrite append_empty_r|]. intros k c Hk. discriminate.
  - cbn [forEach]. unfold bind. rewrite pemBlocks_cons.
    destruct (transcode c) as [pem|] eqn:Hc.
    + rewrite (certBody_good _ _ _ _ _ _ _ Hc).
      destruct (IH (j + 1) (pemData +:+ pem) w) as (lines & E & Hlog).
      exists lines. rewrite E. split.
      * cbn [joinAll foldr]. now rewrite append_assoc.
      * intros [|k] c' Hk Hc'; cbn in Hk.
        -- congruence.
        -- destruct (Hlog k c' Hk Hc') as (fmt & more & Hin).
           exists fmt, more.
           now replace (j + Z.of_nat (S k)) with (j + 1 + Z.of_nat k) by lia.
    + destruct (certBody_bad authority i j c pemData w Hc)
        as (fmt0 & more0 & E0).
      rewrite E0.
      destruct (IH (j + 1) pemData
                  (addLog (LogLine fmt0 (AString authority :: AInt i
                                           :: AInt j :: more0)) w))
        as (lines & E & Hlog).
      eexists. rewrite E, addLogs_addLog. split; [reflexivity|].
      intros [|k] c' Hk Hc'; cbn in Hk.
      * exists fmt0, more0. rewrite Z.add_0_r. apply list_elem_of_here.
      * destruct (Hlog k c' Hk Hc') as (fmt & more & Hin).
        exists fmt, more. apply list_elem_of_further.
        now replace (j + Z.of_nat (S k)) with (j + 1 + Z.of_nat k) by lia.
Qed.

(** A block of the chain is a [CERTIFICATE] block. *)
Lemma pemBlocks_shape (certificates : list value) (pem : string) :
  pem ∈ pemBlocks certificates →
  HasPrefix pem beginCertificate ∧ HasSuffix pem (endCertificate +:+ nl).
Proof.
  unfold pemBlocks. intros H.
  apply list_elem_of_omap in H as (c & _ & Hc).
  unfold transcode in Hc.
  destruct c as [| | | | | |cert|]; try discriminate.
  destruct (cert !! "rawBytes") as [[| | | |s| | |]|]; try discriminate.
  destruct (Base64.DecodeString s) as [der|]; try discriminate.
  destruct (x509_ParseCertificate der); try discriminate.
  injection Hc as <-. apply PemFacts.Encode_prefix_suffix.
Qed.

(** An entry with a chain: the blocks are joined, encoded, and handed to
    [updateYAML]. *)
Lemma entryBody_chain (flags : Flags) (authority : string) (i : Z)
    (authorityData certChainData : gmap string value)
    (certificates : list value) (w : World) :
  authorityData !! "certChain" = Some (VMap certChainData) →
  certChainData !! "certificates" = Some (VSlice certificates) →
  ∃ lines,
    entryBody flags authority i (VMap authorityData) tt w
    = patchEntry flags authority i
        (Base64.EncodeToString (bytesOf (joinAll (pemBlocks certificates))))
        (addLogs lines w)
    ∧ ∀ (k : nat) (c : value),
        certificates !! k = Some c → transcode c = None →
        ∃ fmt more,
          LogLine fmt (AString authority :: AInt i
                         :: AInt (Z.of_nat k) :: more) ∈ lines.
Proof.
  intros Had Hcd. cbn [entryBody]. rewrite Had, Hcd. unfold bind.
  destruct (certLoop_spec authority i certificates 0 EmptyString w)
    as (lines & E & Hlog).
  exists lines. rewrite E. split; [reflexivity|exact Hlog].
Qed.

(** *** The patch of one entry *)

(** With an index that is not negative the update of the tree does not
    panic. *)
Lemma updateTree_Ok_or_Err (root : gmap string value) (authority : string)
    (index : Z) (o c u cc : string) :
  0 ≤ index →
  (∃ root', updateTree root authority index o c u cc = Ok root')
  ∨ (∃ err, updateTree root authority index o c u cc = Err err).
Proof.
  intros Hidx.
  destruct (root !! "spec") as [[| | | | | |spec|]|] eqn:Hspec;
    try (right; eexists; unfold updateTree; rewrite Hspec; reflexivity).
  destruct (spec !! "sigstoreKeys") as [[| | | | | |sk|]|] eqn:Hsk;
    try (right; eexists; unfold updateTree; rewrite Hspec, Hsk; reflexivity).
  left. eexists. apply (updateTree_Ok _ _ _ _ _ _ _ _ _ Hspec Hsk Hidx).
Qed.

(** The entry that a successful update leaves at the index holds the three
    fields. *)
Lemma updateTree_writes (root root' : gmap string value) (authority : string)
    (index : Z) (o c u cc : string) :
  updateTree root authority index o c u cc = Ok root' →
  ∃ entry,
    entryOf root' authority (Z.to_nat index) = Some entry
    ∧ entry !! "certChain" = Some (VString cc)
    ∧ entry !! "uri" = Some (VString u)
    ∧ entry !! "subject"
      = Some (VMap (<["commonName" := VString c]>
                      (<["organization" := VString o]> ∅))).
Proof.
  intros H.
  apply updateTree_inv in H as (spec & sk & Hspec & Hsk & Hidx & ->).
  eexists. unfold entryOf.
  rewrite authorityListOf_patchedRoot, patchedList_lookup_index by assumption.
  split; [reflexivity|]. unfold setFields.
  rewrite lookup_insert_eq.
  rewrite lookup_insert_ne, lookup_insert_eq by discriminate.
  rewrite !lookup_insert_ne, lookup_insert_eq by discriminate.
  repeat split.
Qed.

(** The patch of an entry never leaves the process when the index is not
    negative: an error of [updateYAML] is logged. *)
Lemma patchEntry_total (flags : Flags) (authority : string) (i : Z)
    (certChain : string) (w : World) :
  0 ≤ i → ∃ w', patchEntry flags authority i certChain w = (w', Done tt).
Proof.
  intros Hi. unfold patchEntry, updateYAML.
  destruct (ReadFile (outputFilepath flags) w) as [err|data];
    [eexists; reflexivity|].
  destruct (yaml_Unmarshal data) as [err|root]; [eexists; reflexivity|].
  destruct (updateTree_Ok_or_Err root authority i (organization flags)
              (commonName flags) (uri flags) certChain Hi)
    as [[root' ->]|[err ->]]; [|eexists; reflexivity].
  destruct (yaml_Marshal root') as [err|updated]; [eexists; reflexivity|].
  unfold WriteFile. destruct (decide _); eexists; reflexivity.
Qed.


(** A call of [updateYAML] that returns no error has read a document,
    updated its tree and written the serialization of the result; this is
    how the claims on the tree bear on the file. *)
Lemma updateYAML_Ok_inv (filename authority : string) (index : Z)
    (o c u cc : string) (w w' : World) :
  updateYAML filename authority index o c u cc w = (w', Ok tt) →
  ∃ data root root' data',
    ReadFile filename w = inr data
    ∧ yaml_Unmarshal data = inr root
    ∧ updateTree root authority index o c u cc = Ok root'
    ∧ yaml_Marshal root' = inr data'
    ∧ w' = setFiles (<[filename := data']> (files w)) w.
Proof.
  unfold updateYAML. intros H.
  destruct (ReadFile filename w) as [err|data] eqn:Hr; [discriminate|].
  destruct (yaml_Unmarshal data) as [err|root] eqn:Hu; [discriminate|].
  destruct (updateTree root authority index o c u cc) as [root'|err|msg]
    eqn:Ht; try discriminate.
  destruct (yaml_Marshal root') as [err|data'] eqn:Hm; [discriminate|].
  unfold WriteFile in H. destruct (decide _); [discriminate|].
  injection H as <-. now exists data, root, root', data'.
Qed.

(** The variant of [main] makes the same checks first. *)
Lemma variantMain_checks_flags (rest : Flags → Proc unit) (flags : Flags)
    (w : World) :
  templateFilePath flags = EmptyString ∨ trustedRootPath flags = EmptyString →
  ∃ w', variantMain rest flags w = (w', Exited 1) ∧ files w' = files w.
Proof.
  intros H. unfold variantMain, bind.
  destruct (String.eqb_spec (templateFilePath flags) EmptyString) as [E1|N1].
  - eexists. cbn. split; reflexivity.
  - destruct H as [H|H]; [contradiction|].
    rewrite H. cbn. eexists. split; reflexivity.
Qed.

(** *** The loops end *)

Lemma forEach_total {S : Type} (body : Z → value → S → Proc S) :
  (∀ j x s w, 0 ≤ j → ∃ w' s', body j x s w = (w', Done s')) →
  ∀ (l : list value) (j : Z) (s : S) (w : World),
    0 ≤ j → ∃ w' s', forEach body j l s w = (w', Done s').
Proof.
  intros Hbody. induction l as [|x l IH]; intros j s w Hj; cbn [forEach].
  - now eexists _, _.
  - unfold bind. destruct (Hbody j x s w Hj) as (w1 & s1 & ->).
    apply IH. lia.
Qed.

Lemma entryBody_total (flags : Flags) (authority : string) (i : Z)
    (entry : value) (w : World) :
  0 ≤ i → ∃ w', entryBody flags authority i entry tt w = (w', Done tt).
Proof.
  intros Hi.
  destruct entry as [| | | | | |ad|]; try (eexists; reflexivity).
  destruct (ad !! "certChain") as [[| | | | | |cd|]|] eqn:Had;
    try (eexists; cbn [entryBody]; rewrite Had; reflexivity).
  destruct (cd !! "certificates") as [[| | | | |cs| |]|] eqn:Hcd;
    try (eexists; cbn [entryBody]; rewrite Had, Hcd; reflexivity).
  destruct (entryBody_chain flags authority i ad cd cs w Had Hcd)
    as (lines & -> & _).
  now apply patchEntry_total.
Qed.

Lemma kindBody_total (flags : Flags) (trustedRoot : gmap string value)
    (authority : string) (w : World) :
  ∃ w', kindBody flags trustedRoot authority w = (w', Done tt).
Proof.
  unfold kindBody.
  destruct (trustedRoot !! authority) as [[| | | | |l| |]|];
    try (eexists; reflexivity).
  unfold bind, Printf.
  destruct (forEach_total (entryBody flags authority)) with
    (l := l) (j := 0) (s := tt)
    (w := addLog (LogLine "There are %d %s"
                    [AInt (len l); AString authority]) w)
    as (w' & [] & E); [|lia|].
  - intros j x [] w0 Hj.
    destruct (entryBody_total flags authority j x w0 Hj) as [w1 E1].
    now exists w1, tt.
  - exists w'. exact E.
Qed.

(** Once [trusted_root.json] is decoded, nothing in it ends the run. *)
Lemma processAuthorities_total (flags : Flags)
    (trustedRoot : gmap string value) (w : World) :
  ∃ w', processAuthorities flags trustedRoot w = (w', Done tt).
Proof.
  unfold processAuthorities, bind.
  destruct (kindBody_total flags trustedRoot "certificateAuthorities" w)
    as [w1 ->].
  apply kindBody_total.
Qed.

Lemma main_completes (flags : Flags) (trustedRoot : gmap string value)
    (w w1 : World) :
  setup flags w = (w1, Done trustedRoot) →
  ∃ w', main flags w = (w', Done tt) ∧ exitCode (main flags w) = 0.
Proof.
  intros Hs. unfold main, bind. rewrite Hs.
  destruct (processAuthorities_total flags trustedRoot w1) as [w2 ->].
  eexists. split; reflexivity.
Qed.

(** *** Claims on the chains *)

Lemma transcode_good (cert : gmap string value) (raw : string)
    (der : list byte) (parsed : Certificate) :
  cert !! "rawBytes" = Some (VString raw) →
  Base64.DecodeString raw = Some der →
  x509_ParseCertificate der = inr parsed →
  transcode (VMap cert)
  = Some (Pem.Encode {| Pem.Type_ := "CERTIFICATE"; Pem.Bytes := der |}).
Proof. intros Hr Hd Hp. unfold transcode. now rewrite Hr, Hd, Hp. Qed.

(** C3: for an authority entry with a chain, every certificate whose
    [rawBytes] decodes from base64 to bytes that [x509.ParseCertificate]
    accepts gives a block of the chain; every block begins with
    [-----BEGIN CERTIFICATE-----] and ends with the line
    [-----END CERTIFICATE-----]; the [certChain] handed to [updateYAML], which
    a successful update writes into the entry, decodes from base64 to the
    concatenation of the blocks in the order of the chain; and for an empty
    chain it is the base64 encoding of the empty string. *)
Theorem certChain_is_pem_chain (flags : Flags) (authority : string) (i : Z)
    (authorityData certChainData : gmap string value)
    (certificates : list value) (w : World) :
  authorityData !! "certChain" = Some (VMap certChainData) →
  certChainData !! "certificates" = Some (VSlice certificates) →
  ∃ lines certChain,
    entryBody flags authority i (VMap authorityData) tt w
    = patchEntry flags authority i certChain (addLogs lines w)
    ∧ Base64.DecodeString certChain
      = Some (bytesOf (joinAll (pemBlocks certificates)))
    ∧ (∀ (k : nat) cert raw der parsed,
         certificates !! k = Some (VMap cert) →
         cert !! "rawBytes" = Some (VString raw) →
         Base64.DecodeString raw = Some der →
         x509_ParseCertificate der = inr parsed →
         Pem.Encode {| Pem.Type_ := "CERTIFICATE"; Pem.Bytes := der |}
           ∈ pemBlocks certificates)
    ∧ (∀ pem, pem ∈ pemBlocks certificates →
         HasPrefix pem beginCertificate
         ∧ HasSuffix pem (endCertificate +:+ nl))
    ∧ (∀ root root',
         updateTree root authority i (organization flags) (commonName flags)
           (uri flags) certChain = Ok root' →
         ∃ entry, entryOf root' authority (Z.to_nat i) = Some entry
                  ∧ entry !! "certChain" = Some (VString certChain))
    ∧ (certificates = [] →
       certChain = Base64.EncodeToString (bytesOf EmptyString)).
Proof.
  intros Had Hcd.
  destruct (entryBody_chain flags authority i _ _ _ w Had Hcd)
    as (lines & E & _).
  eexists lines, _. split; [exact E|].
  split; [apply Base64Facts.DecodeString_EncodeToString|].
  split.
  { intros k cert raw der parsed Hk Hr Hd Hp. unfold pemBlocks.
    apply list_elem_of_omap. exists (VMap cert).
    split; [now apply list_elem_of_lookup_2 with k|].
    now apply transcode_good with raw parsed. }
  split; [apply pemBlocks_shape|].
  split.
  { intros root root' Hu.
    destruct (updateTree_writes _ _ _ _ _ _ _ _ Hu) as (e & He & Hc & _).
    now exists e. }
  now intros ->.
Qed.

(** C6: a certificate of a chain that is not a mapping, or whose [rawBytes]
    is missing or not a string, or that fails base64 decoding or X.509
    parsing, is the only one skipped: a line with its position is logged, the
    [certChain] of the entry is built from the blocks of the certificates
    before and after it, the body of the loop ends normally, and so does the
    whole processing of the authorities. *)
Theorem bad_certificate_skipped (flags : Flags) (authority : string) (i : Z)
    (authorityData certChainData : gmap string value)
    (pre post : list value) (c : value) (w : World) :
  badCertificate c →
  authorityData !! "certChain" = Some (VMap certChainData) →
  certChainData !! "certificates" = Some (VSlice (pre ++ c :: post)) →
  0 ≤ i →
  ∃ lines fmt more w',
    entryBody flags authority i (VMap authorityData) tt w
    = patchEntry flags authority i
        (Base64.EncodeToString
           (bytesOf (joinAll (pemBlocks pre ++ pemBlocks post))))
        (addLogs lines w)
    ∧ LogLine fmt (AString authority :: AInt i :: AInt (len pre) :: more)
        ∈ lines
    ∧ entryBody flags authority i (VMap authorityData) tt w = (w', Done tt)
    ∧ ∀ trustedRoot w0,
        ∃ w1, processAuthorities flags trustedRoot w0 = (w1, Done tt).
Proof.
  intros Hbad Had Hcd Hi.
  apply badCertificate_transcode in Hbad.
  destruct (entryBody_chain flags authority i _ _ _ w Had Hcd)
    as (lines & E & Hlog).
  destruct (Hlog (length pre) c) as (fmt & more & Hin);
    [now rewrite list_lookup_middle|assumption|].
  destruct (entryBody_total flags authority i (VMap authorityData) w Hi)
    as [w' E'].
  exists lines, fmt, more, w'. split; [|split; [exact Hin|split]].
  - rewrite E, pemBlocks_app, pemBlocks_cons, Hbad. reflexivity.
  - exact E'.
  - intros trustedRoot w0. apply processAuthorities_total.
Qed.


End Process.

Lemma bad_entry_skipped_witness :
  badEntry (VString "x")
  ∧ ∃ line w',
      entryBody (L := exampleLibraries) defaultFlags "certificateAuthorities"
        0 (VString "x") tt exampleWorld = (w', Done tt)
      ∧ w' = addLog line exampleWorld
      ∧ files w' = files exampleWorld
      ∧ forEach (entryBody (L := exampleLibraries) defaultFlags
                   "certificateAuthorities") 0
          [VString "x"; exampleEntry []] tt exampleWorld
        = forEach (entryBody (L := exampleLibraries) defaultFlags
                     "certificateAuthorities") (0 + 1)
            [exampleEntry []] tt w'.
Proof.
  assert (H : badEntry (VString "x")) by (left; intros ad; discriminate).
  split; [exact H|].
  exact (bad_entry_skipped (L := exampleLibraries) defaultFlags
           "certificateAuthorities" 0 (VString "x") [exampleEntry []]
           exampleWorld H).
Defined.

Lemma missing_flag_fatal_witness :
  let flags := {| outputFilepath := "/tmp/trustroot.yaml";
                  templateFilePath := EmptyString;
                  trustedRootPath := "trusted_root.json";
                  organization := "GitHub, Inc.";
                  commonName := "Internal Services Root";
                  uri := "https://fulcio.githubapp.com" |} in
  (templateFilePath flags = EmptyString ∨ trustedRootPath flags = EmptyString)
  ∧ ∃ w',
      main (L := exampleLibraries) flags exampleWorld = (w', Exited 1)
      ∧ exitCode (main (L := exampleLibraries) flags exampleWorld) = 1
      ∧ files w' = files exampleWorld.
Proof.
  intros flags.
  assert (H : templateFilePath flags = EmptyString
              ∨ trustedRootPath flags = EmptyString)
    by (left; reflexivity).
  split; [exact H|].
  exact (missing_flag_fatal (L := exampleLibraries) flags exampleWorld H).
Defined.

Lemma certChain_is_pem_chain_witness :
  let ad : gmap string value :=
    <["certChain" :=
       VMap (<["certificates" := VSlice [exampleCert; exampleBadCert]]> ∅)]> ∅
  in
  let cd : gmap string value :=
    <["certificates" := VSlice [exampleCert; exampleBadCert]]> ∅ in
  ad !! "certChain" = Some (VMap cd)
  ∧ cd !! "certificates" = Some (VSlice [exampleCert; exampleBadCert])
  ∧ ∃ lines certChain,
      entryBody (L := exampleLibraries) defaultFlags "certificateAuthorities"
        0 (VMap ad) tt exampleWorld
      = patchEntry (L := exampleLibraries) defaultFlags
          "certificateAuthorities" 0 certChain (addLogs lines exampleWorld)
      ∧ Base64.DecodeString certChain
        = Some (bytesOf (joinAll (pemBlocks (L := exampleLibraries)
                                    [exampleCert; exampleBadCert]))).
Proof.
  intros ad cd.
  assert (Had : ad !! "certChain" = Some (VMap cd)) by reflexivity.
  assert (Hcd : cd !! "certificates"
                = Some (VSlice [exampleCert; exampleBadCert]))
    by reflexivity.
  split; [exact Had|]. split; [exact Hcd|].
  destruct (certChain_is_pem_chain (L := exampleLibraries) defaultFlags
              "certificateAuthorities" 0 ad cd
              [exampleCert; exampleBadCert] exampleWorld Had Hcd)
    as (lines & certChain & E & Hd & _).
  now exists lines, certChain.
Defined.

Lemma bad_certificate_skipped_witness :
  let ad : gmap string value :=
    <["certChain" :=
       VMap (<["certificates" := VSlice [exampleCert; exampleBadCert]]> ∅)]> ∅
  in
  let cd : gmap string value :=
    <["certificates" := VSlice [exampleCert; exampleBadCert]]> ∅ in
  badCertificate (L := exampleLibraries) exampleBadCert
  ∧ ad !! "certChain" = Some (VMap cd)
  ∧ cd !! "certificates" = Some (VSlice ([exampleCert] ++ exampleBadCert :: []))
  ∧ 0 ≤ 0
  ∧ ∃ lines fmt more,
      entryBody (L := exampleLibraries) defaultFlags "certificateAuthorities"
        0 (VMap ad) tt exampleWorld
      = patchEntry (L := exampleLibraries) defaultFlags
          "certificateAuthorities" 0
          (Base64.EncodeToString
             (bytesOf (joinAll (pemBlocks (L := exampleLibraries)
                                  [exampleCert]
                                ++ pemBlocks (L := exampleLibraries) []))))
          (addLogs lines exampleWorld)
      ∧ LogLine fmt (AString "certificateAuthorities" :: AInt 0
                       :: AInt (len [exampleCert]) :: more) ∈ lines.
Proof.
  intros ad cd.
  assert (Hbad : badCertificate (L := exampleLibraries) exampleBadCert).
  { right. right. left.
    exists (<["rawBytes" := VString "%%%"]> ∅), "%%%".
    repeat split. }
  assert (Had : ad !! "certChain" = Some (VMap cd)) by reflexivity.
  assert (Hcd : cd !! "certificates"
                = Some (VSlice ([exampleCert] ++ exampleBadCert :: [])))
    by reflexivity.
  assert (Hi : 0 ≤ 0) by lia.
  split; [exact Hbad|]. split; [exact Had|]. split; [exact Hcd|].
  split; [exact Hi|].
  destruct (bad_certificate_skipped (L := exampleLibraries) defaultFlags
              "certificateAuthorities" 0 ad cd [exampleCert] []
              exampleBadCert exampleWorld Hbad Had Hcd Hi)
    as (lines & fmt & more & w' & E & Hin & _).
  now exists lines, fmt, more.
Defined.


(* ===================================================================== *)
(** * Further properties *)
(* ===================================================================== *)

(** ** [updateYAML]: errors, bounds, and how updates compose *)

Lemma sigstoreKeysOf_None_Err (root : gmap string value) (authority : string)
    (index : Z) (o c u cc : string) :
  sigstoreKeysOf root = None →
  updateTree root authority index o c u cc
  = Err (Errorf "missing 'spec' section in YAML" None)
  ∨ updateTree root authority index o c u cc
    = Err (Errorf "missing 'sigstoreKeys' section in YAML" None).
Proof.
  unfold sigstoreKeysOf, updateTree. intros H.
  destruct (root !! "spec") as [[| | | | | |spec|]|]; try (now left).
  destruct (spec !! "sigstoreKeys") as [[| | | | | |sk|]|];
    try discriminate; now right.
Qed.

Lemma updateTree_negative (root spec sk : gmap string value)
    (authority : string) (index : Z) (o c u cc : string) :
  root !! "spec" = Some (VMap spec) →
  spec !! "sigstoreKeys" = Some (VMap sk) →
  index < 0 →
  ∃ msg, updateTree root authority index o c u cc = Panic msg.
Proof.
  intros Hspec Hsk Hneg. unfold updateTree. rewrite Hspec, Hsk.
  assert (H2 : (index <? 0) = true) by (apply Z.ltb_lt; lia).
  destruct (sk !! authority) as [[]|]; rewrite ?H2;
    try destruct (index + 1 <? 0); eexists; reflexivity.
Qed.

(** The update of the tree fails with an error exactly when the document
    has no [spec] mapping or no [sigstoreKeys] mapping under it. *)
Lemma updateTree_error_iff (root : gmap string value) (authority : string)
    (index : Z) (o c u cc : string) :
  ((∃ err, updateTree root authority index o c u cc = Err err)
   ↔ sigstoreKeysOf root = None)
  ∧ ∀ err, updateTree root authority index o c u cc = Err err →
      err = Errorf "missing 'spec' section in YAML" None
      ∨ err = Errorf "missing 'sigstoreKeys' section in YAML" None.
Proof.
  destruct (sigstoreKeysOf root) as [sk|] eqn:Hsk.
  - apply sigstoreKeysOf_Some in Hsk as (spec & Hspec & Hsk).
    assert (Hno : ∀ err, updateTree root authority index o c u cc ≠ Err err).
    { intros err H. destruct (Z.lt_ge_cases index 0) as [Hneg|Hpos].
      - destruct (updateTree_negative root spec sk authority index o c u cc
                    Hspec Hsk Hneg) as [msg E]. congruence.
      - rewrite (updateTree_Ok _ _ _ _ _ o c u cc Hspec Hsk Hpos) in H.
        discriminate. }
    split; [split|].
    + intros [err H]. now destruct (Hno err).
    + discriminate.
    + intros err H. now destruct (Hno err).
  - destruct (sigstoreKeysOf_None_Err root authority index o c u cc Hsk)
      as [E|E]; rewrite E; split; try split; try (intros; eauto; fail).
    + intros err [= <-]. now left.
    + intros err [= <-]. now right.
Qed.

Lemma updateTree_missing_spec_iff (root : gmap string value)
    (authority : string) (index : Z) (o c u cc : string) :
  updateTree root authority index o c u cc
  = Err (Errorf "missing 'spec' section in YAML" None)
  ↔ ∀ spec, root !! "spec" ≠ Some (VMap spec).
Proof.
  split.
  - intros H spec Hspec.
    destruct (spec !! "sigstoreKeys") as [[| | | | | |sk|]|] eqn:Hsk;
      try (unfold updateTree in H; rewrite Hspec, Hsk in H; discriminate).
    destruct (Z.lt_ge_cases index 0) as [Hneg|Hpos].
    + destruct (updateTree_negative root spec sk authority index o c u cc
                  Hspec Hsk Hneg) as [msg E]. congruence.
    + rewrite (updateTree_Ok _ _ _ _ _ o c u cc Hspec Hsk Hpos) in H.
      discriminate.
  - intros H. unfold updateTree.
    destruct (root !! "spec") as [[| | | | | |spec|]|]; try reflexivity.
    now destruct (H spec).
Qed.

Lemma updateTree_missing_sigstoreKeys_iff (root : gmap string value)
    (authority : string) (index : Z) (o c u cc : string) :
  updateTree root authority index o c u cc
  = Err (Errorf "missing 'sigstoreKeys' section in YAML" None)
  ↔ ∃ spec, root !! "spec" = Some (VMap spec)
            ∧ ∀ sk, spec !! "sigstoreKeys" ≠ Some (VMap sk).
Proof.
  split.
  - intros H.
    destruct (root !! "spec") as [[| | | | | |spec|]|] eqn:Hspec;
      try (unfold updateTree in H; rewrite Hspec in H; discriminate).
    exists spec. split; [reflexivity|]. intros sk Hsk.
    destruct (Z.lt_ge_cases index 0) as [Hneg|Hpos].
    + destruct (updateTree_negative root spec sk authority index o c u cc
                  Hspec Hsk Hneg) as [msg E]. congruence.
    + rewrite (updateTree_Ok _ _ _ _ _ o c u cc Hspec Hsk Hpos) in H.
      discriminate.
  - intros (spec & Hspec & H). unfold updateTree. rewrite Hspec.
    destruct (spec !! "sigstoreKeys") as [[| | | | | |sk|]|];
      try reflexivity.
    now destruct (H sk).
Qed.

(** What [updateYAML] returns is an error of [updateTree] only when the file
    was read and parsed. *)
Lemma updateYAML_Err_inv `{L : Libraries} (filename authority : string)
    (index : Z) (o c u cc : string) (w w' : World) (msg : string) :
  updateYAML filename authority index o c u cc w
  = (w', Err (Errorf msg None)) →
  w' = w
  ∧ ∃ data root,
      ReadFile filename w = inr data
      ∧ yaml_Unmarshal data = inr root
      ∧ updateTree root authority index o c u cc = Err (Errorf msg None).
Proof.
  unfold updateYAML. intros H.
  destruct (ReadFile filename w) as [err|data] eqn:Hr; [discriminate|].
  destruct (yaml_Unmarshal data) as [err|root] eqn:Hu; [discriminate|].
  destruct (updateTree root authority index o c u cc) as [root'|e|m] eqn:Ht.
  - destruct (yaml_Marshal root'); [discriminate|].
    unfold WriteFile in H. destruct (decide _); discriminate.
  - injection H as <- ->. split; [reflexivity|]. now exists data, root.
  - discriminate.
Qed.

(** X1: [updateYAML] returns the error "missing 'spec' section in YAML"
    exactly when the file could be read and parsed and the document has no
    [spec] mapping, and the error "missing 'sigstoreKeys' section in YAML"
    exactly when it has a [spec] mapping without a [sigstoreKeys] mapping,
    whatever the index is (the sections are looked up before the index is
    used); in both cases it has written nothing. *)
Theorem updateYAML_missing_section_iff `{L : Libraries}
    (filename authority : string) (index : Z) (o c u cc : string)
    (w : World) :
  ((∃ w', updateYAML filename authority index o c u cc w
          = (w', Err (Errorf "missing 'spec' section in YAML" None)))
   ↔ ∃ data root,
       ReadFile filename w = inr data
       ∧ yaml_Unmarshal data = inr root
       ∧ ∀ spec, root !! "spec" ≠ Some (VMap spec))
  ∧ ((∃ w', updateYAML filename authority index o c u cc w
            = (w', Err (Errorf "missing 'sigstoreKeys' section in YAML"
                          None)))
     ↔ ∃ data root spec,
         ReadFile filename w = inr data
         ∧ yaml_Unmarshal data = inr root
         ∧ root !! "spec" = Some (VMap spec)
         ∧ ∀ sk, spec !! "sigstoreKeys" ≠ Some (VMap sk))
  ∧ ∀ w' msg,
      updateYAML filename authority index o c u cc w
      = (w', Err (Errorf msg None)) →
      w' = w.
Proof.
  split; [|split].
  - split.
    + intros [w' H]. apply updateYAML_Err_inv in H
        as (_ & data & root & Hr & Hu & Ht).
      exists data, root. split; [assumption|]. split; [assumption|].
      exact (proj1 (updateTree_missing_spec_iff root authority index
                      o c u cc) Ht).
    + intros (data & root & Hr & Hu & Hno). exists w.
      unfold updateYAML. rewrite Hr, Hu.
      now rewrite (proj2 (updateTree_missing_spec_iff root authority index
                            o c u cc) Hno).
  - split.
    + intros [w' H]. apply updateYAML_Err_inv in H
        as (_ & data & root & Hr & Hu & Ht).
      apply updateTree_missing_sigstoreKeys_iff in Ht as (spec & Hs & Hno).
      now exists data, root, spec.
    + intros (data & root & spec & Hr & Hu & Hs & Hno). exists w.
      unfold updateYAML. rewrite Hr, Hu.
      rewrite (proj2 (updateTree_missing_sigstoreKeys_iff root authority
                        index o c u cc)); [reflexivity|].
      now exists spec.
  - intros w' msg H. now apply updateYAML_Err_inv in H as (-> & _).
Qed.



Lemma setFields_overwrite (o c u cc o' c' u' cc' : string)
    (entry : gmap string value) :
  setFields o' c' u' cc' (setFields o c u cc entry)
  = setFields o' c' u' cc' entry.
Proof.
  apply map_eq. intros k. unfold setFields.
  rewrite !lookup_insert. repeat case_decide; reflexivity.
Qed.

(** X3: after a successful [updateYAML] the entry at the index holds [uri]
    and [certChain] as given, and its [subject] is a mapping with the two keys
    [organization] and [commonName] and no other: a subject that was there is
    replaced, not merged. *)
Theorem updateYAML_sets_fields (root root' : gmap string value)
    (authority : string) (index : Z) (o c u cc : string) :
  updateTree root authority index o c u cc = Ok root' →
  ∃ entry subject,
    entryOf root' authority (Z.to_nat index) = Some entry
    ∧ entry !! "uri" = Some (VString u)
    ∧ entry !! "certChain" = Some (VString cc)
    ∧ entry !! "subject" = Some (VMap subject)
    ∧ subject !! "organization" = Some (VString o)
    ∧ subject !! "commonName" = Some (VString c)
    ∧ ∀ k : string, k ≠ "organization" → k ≠ "commonName" →
        subject !! k = None.
Proof.
  intros H.
  apply updateTree_inv in H as (spec & sk & Hspec & Hsk & Hidx & ->).
  eexists _, _. unfold entryOf.
  rewrite authorityListOf_patchedRoot, patchedList_lookup_index by assumption.
  split; [reflexivity|]. unfold setFields.
  split; [now rewrite lookup_insert_ne, lookup_insert_eq by discriminate|].
  split; [now rewrite lookup_insert_eq|].
  split; [now rewrite !lookup_insert_ne, lookup_insert_eq by discriminate|].
  split; [now rewrite lookup_insert_ne, lookup_insert_eq by discriminate|].
  split; [now rewrite lookup_insert_eq|].
  intros k H1 H2. now rewrite !lookup_insert_ne, lookup_empty by congruence.
Qed.

Lemma updateYAML_sets_fields_witness :
  ∃ root',
    updateTree exampleTemplate "timestampAuthorities" 0 "o" "c" "u" "x"
    = Ok root'
    ∧ ∃ entry subject,
        entryOf root' "timestampAuthorities" (Z.to_nat 0) = Some entry
        ∧ entry !! "uri" = Some (VString "u")
        ∧ entry !! "certChain" = Some (VString "x")
        ∧ entry !! "subject" = Some (VMap subject)
        ∧ subject !! "organization" = Some (VString "o")
        ∧ subject !! "commonName" = Some (VString "c")
        ∧ ∀ k : string, k ≠ "organization" → k ≠ "commonName" →
            subject !! k = None.
Proof.
  eexists. split.
  - apply (updateTree_Ok exampleTemplate
             (<["sigstoreKeys" := VMap ∅]> ∅) ∅); [reflexivity..|lia].
  - apply (updateYAML_sets_fields exampleTemplate _ "timestampAuthorities" 0
             "o" "c" "u" "x").
    apply (updateTree_Ok exampleTemplate
             (<["sigstoreKeys" := VMap ∅]> ∅) ∅); [reflexivity..|lia].
Defined.

(** X4: an element at the index that is not a mapping (a string, a number,
    [nil], a sequence) is discarded: the entry left there holds [subject],
    [uri] and [certChain] and nothing else. *)
Theorem updateYAML_replaces_non_mapping (root : gmap string value)
    (authority : string) (i : nat) (o c u cc : string) (l : list value)
    (v : value) :
  authorityListOf root authority = Some l →
  l !! i = Some v →
  (∀ e, v ≠ VMap e) →
  ∃ root' entry,
    updateTree root authority (Z.of_nat i) o c u cc = Ok root'
    ∧ entryOf root' authority i = Some entry
    ∧ entry !! "certChain" = Some (VString cc)
    ∧ ∀ f : string, f ≠ "subject" → f ≠ "uri" → f ≠ "certChain" →
        entry !! f = None.
Proof.
  intros Hl Hv Hno.
  apply authorityListOf_Some in Hl as (sk & Hsk & Hl).
  apply sigstoreKeysOf_Some in Hsk as (spec & Hspec & Hsk).
  assert (Hidx : 0 ≤ Z.of_nat i) by lia.
  eexists _, _.
  split; [apply (updateTree_Ok _ _ _ _ _ _ _ _ _ Hspec Hsk Hidx)|].
  unfold entryOf. rewrite authorityListOf_patchedRoot.
  pose proof (patchedList_lookup_index (initialList sk authority (Z.of_nat i))
                (Z.of_nat i) o c u cc Hidx) as E.
  rewrite Nat2Z.id in E. rewrite E. split; [reflexivity|].
  assert (Hentry : entryFields (grow (initialList sk authority (Z.of_nat i))
                                  (Z.of_nat i)) i = ∅).
  { unfold initialList, entryFields. rewrite Hl, grow_replicate.
    rewrite lookup_app_l by (apply lookup_lt_Some in Hv; assumption).
    rewrite Hv. destruct v; try reflexivity. now destruct (Hno m). }
  rewrite Hentry. unfold setFields. split.
  - now rewrite lookup_insert_eq.
  - intros f H1 H2 H3.
    now rewrite !lookup_insert_ne, lookup_empty by congruence.
Qed.

Lemma updateYAML_replaces_non_mapping_witness :
  let root : gmap string value :=
    <["spec" := VMap (<["sigstoreKeys" :=
        VMap (<["timestampAuthorities" :=
                 VSlice [VString "a"; VInt 7]]> ∅)]> ∅)]> ∅ in
  authorityListOf root "timestampAuthorities" = Some [VString "a"; VInt 7]
  ∧ [VString "a"; VInt 7] !! 1%nat = Some (VInt 7)
  ∧ (∀ e, VInt 7 ≠ VMap e)
  ∧ ∃ root' entry,
      updateTree root "timestampAuthorities" (Z.of_nat 1) "o" "c" "u" "x"
      = Ok root'
      ∧ entryOf root' "timestampAuthorities" 1 = Some entry
      ∧ entry !! "certChain" = Some (VString "x")
      ∧ ∀ f : string, f ≠ "subject" → f ≠ "uri" → f ≠ "certChain" →
          entry !! f = None.
Proof.
  intros root.
  assert (H1 : authorityListOf root "timestampAuthorities"
               = Some [VString "a"; VInt 7]) by reflexivity.
  assert (H2 : [VString "a"; VInt 7] !! 1%nat = Some (VInt 7))
    by reflexivity.
  assert (H3 : ∀ e, VInt 7 ≠ VMap e) by (intros e; discriminate).
  split; [exact H1|]. split; [exact H2|]. split; [exact H3|].
  exact (updateYAML_replaces_non_mapping root "timestampAuthorities" 1
           "o" "c" "u" "x" [VString "a"; VInt 7] (VInt 7) H1 H2 H3).
Defined.

(** X5: an index inside an existing sequence does not change its length:
    only the element at the index is touched. *)
Theorem updateYAML_in_range_keeps_length (root : gmap string value)
    (authority : string) (index : Z) (o c u cc : string) (l : list value) :
  authorityListOf root authority = Some l →
  0 ≤ index < len l →
  ∃ root' l',
    updateTree root authority index o c u cc = Ok root'
    ∧ authorityListOf root' authority = Some l'
    ∧ length l' = length l
    ∧ ∀ j : nat, j ≠ Z.to_nat index → l' !! j = l !! j.
Proof.
  intros Hl [Hidx Hlt].
  apply authorityListOf_Some in Hl as (sk & Hsk & Hl).
  apply sigstoreKeysOf_Some in Hsk as (spec & Hspec & Hsk).
  eexists _, _.
  split; [apply (updateTree_Ok _ _ _ _ _ _ _ _ _ Hspec Hsk Hidx)|].
  split; [apply authorityListOf_patchedRoot|].
  unfold initialList. rewrite Hl. unfold patchedList.
  rewrite grow_long by assumption. split.
  - apply length_insert.
  - intros j Hj. now apply list_lookup_insert_ne.
Qed.

Lemma updateYAML_in_range_keeps_length_witness :
  let root : gmap string value :=
    <["spec" := VMap (<["sigstoreKeys" :=
        VMap (<["timestampAuthorities" :=
                 VSlice [VString "a"; VInt 7]]> ∅)]> ∅)]> ∅ in
  authorityListOf root "timestampAuthorities" = Some [VString "a"; VInt 7]
  ∧ 0 ≤ 0 < len [VString "a"; VInt 7]
  ∧ ∃ root' l',
      updateTree root "timestampAuthorities" 0 "o" "c" "u" "x" = Ok root'
      ∧ authorityListOf root' "timestampAuthorities" = Some l'
      ∧ length l' = length [VString "a"; VInt 7]
      ∧ ∀ j : nat, j ≠ Z.to_nat 0 → l' !! j = [VString "a"; VInt 7] !! j.
Proof.
  intros root.
  assert (H1 : authorityListOf root "timestampAuthorities"
               = Some [VString "a"; VInt 7]) by reflexivity.
  assert (H2 : 0 ≤ 0 < len [VString "a"; VInt 7]) by (unfold len; simpl; lia).
  split; [exact H1|]. split; [exact H2|].
  exact (updateYAML_in_range_keeps_length root "timestampAuthorities" 0
           "o" "c" "u" "x" [VString "a"; VInt 7] H1 H2).
Defined.

Lemma patchedRoot_patchedRoot (root spec sk : gmap string value)
    (a b : string) (la lb : list value) :
  patchedRoot (patchedRoot root spec sk a la)
    (<["sigstoreKeys" := VMap (<[a := VSlice la]> sk)]> spec)
    (<[a := VSlice la]> sk) b lb
  = patchedRoot root spec (<[a := VSlice la]> sk) b lb.
Proof. unfold patchedRoot. now rewrite !insert_insert_eq. Qed.

(** An update of a tree that an update has left. *)
Lemma updateTree_patchedRoot (root spec sk : gmap string value)
    (a b : string) (la : list value) (j : Z) (o c u cc : string) :
  0 ≤ j →
  updateTree (patchedRoot root spec sk a la) b j o c u cc
  = Ok (patchedRoot root spec (<[a := VSlice la]> sk) b
          (patchedList (initialList (<[a := VSlice la]> sk) b j) j o c u cc)).
Proof.
  intros Hj. rewrite <- patchedRoot_patchedRoot.
  apply updateTree_Ok; [apply lookup_insert_eq..|assumption].
Qed.

Lemma initialList_insert_ne (sk : gmap string value) (a b : string)
    (la : list value) (j : Z) :
  a ≠ b →
  initialList (<[a := VSlice la]> sk) b j = initialList sk b j.
Proof. intros H. unfold initialList. now rewrite lookup_insert_ne. Qed.

Lemma patchedList_overwrite (l : list value) (index : Z)
    (o c u cc o' c' u' cc' : string) :
  0 ≤ index →
  patchedList (patchedList l index o c u cc) index o' c' u' cc'
  = patchedList l index o' c' u' cc'.
Proof.
  intros H. set (l1 := patchedList l index o c u cc).
  assert (Hlen : index < len l1).
  { unfold len, l1. rewrite length_patchedList.
    pose proof (length_grow l index). lia. }
  unfold patchedList at 1. rewrite (grow_long l1) by assumption.
  unfold entryFields at 1. unfold l1 at 1.
  rewrite patchedList_lookup_index by assumption.
  rewrite setFields_overwrite. unfold l1, patchedList.
  apply list_insert_insert_eq.
Qed.

(** X6: updates of the two authority kinds do not see each other: made in
    either order they leave the same tree. *)
Theorem updateYAML_kinds_commute (root r1 r12 : gmap string value)
    (a b : string) (i j : Z) (o c u cc o' c' u' cc' : string) :
  a ≠ b →
  updateTree root a i o c u cc = Ok r1 →
  updateTree r1 b j o' c' u' cc' = Ok r12 →
  ∃ r2,
    updateTree root b j o' c' u' cc' = Ok r2
    ∧ updateTree r2 a i o c u cc = Ok r12.
Proof.
  intros Hab H1 H2.
  apply updateTree_inv in H1 as (spec & sk & Hspec & Hsk & Hi & ->).
  assert (Hj : 0 ≤ j).
  { destruct (Z.lt_ge_cases j 0) as [Hneg|Hpos]; [|assumption].
    assert (∃ msg,
              updateTree
                (patchedRoot root spec sk a
                   (patchedList (initialList sk a i) i o c u cc))
                b j o' c' u' cc' = Panic msg) as [msg E].
    { unfold patchedRoot.
      eapply updateTree_negative;
        [apply lookup_insert_eq|apply lookup_insert_eq|assumption]. }
    congruence. }
  rewrite updateTree_patchedRoot in H2 by assumption.
  injection H2 as <-.
  eexists. split; [apply (updateTree_Ok _ _ _ _ _ _ _ _ _ Hspec Hsk Hj)|].
  rewrite updateTree_patchedRoot by assumption. f_equal.
  rewrite !initialList_insert_ne by congruence.
  unfold patchedRoot. now rewrite (insert_insert_ne sk a b) by assumption.
Qed.

Lemma updateYAML_kinds_commute_witness :
  ∃ r1 r12,
    "certificateAuthorities" ≠ "timestampAuthorities"
    ∧ updateTree exampleTemplate "certificateAuthorities" 0 "o" "c" "u" "x"
      = Ok r1
    ∧ updateTree r1 "timestampAuthorities" 1 "o" "c" "u" "y" = Ok r12
    ∧ ∃ r2,
        updateTree exampleTemplate "timestampAuthorities" 1 "o" "c" "u" "y"
        = Ok r2
        ∧ updateTree r2 "certificateAuthorities" 0 "o" "c" "u" "x" = Ok r12.
Proof.
  assert (Hne : "certificateAuthorities" ≠ "timestampAuthorities")
    by discriminate.
  assert (H1 : updateTree exampleTemplate "certificateAuthorities" 0
                 "o" "c" "u" "x"
               = Ok (patchedRoot exampleTemplate
                       (<["sigstoreKeys" := VMap ∅]> ∅) ∅
                       "certificateAuthorities"
                       (patchedList (initialList ∅ "certificateAuthorities" 0)
                          0 "o" "c" "u" "x")))
    by (apply updateTree_Ok; [reflexivity..|lia]).
  eexists _, _. split; [exact Hne|]. split; [exact H1|].
  assert (H2 := updateTree_patchedRoot exampleTemplate
                  (<["sigstoreKeys" := VMap ∅]> ∅) ∅
                  "certificateAuthorities" "timestampAuthorities"
                  (patchedList (initialList ∅ "certificateAuthorities" 0)
                     0 "o" "c" "u" "x")
                  1 "o" "c" "u" "y" ltac:(lia)).
  split; [exact H2|].
  exact (updateYAML_kinds_commute _ _ _ _ _ _ _ _ _ _ _ _ _ _ _ Hne H1 H2).
Defined.

(** X7: the last update of an entry wins: a second [updateYAML] for the same
    authority and index leaves the tree that it alone would have left. *)
Theorem updateYAML_last_wins (root r1 r2 : gmap string value)
    (authority : string) (index : Z) (o c u cc o' c' u' cc' : string) :
  updateTree root authority index o c u cc = Ok r1 →
  updateTree r1 authority index o' c' u' cc' = Ok r2 →
  updateTree root authority index o' c' u' cc' = Ok r2.
Proof.
  intros H1 H2.
  apply updateTree_inv in H1 as (spec & sk & Hspec & Hsk & Hi & ->).
  rewrite updateTree_patchedRoot in H2 by assumption.
  injection H2 as <-.
  rewrite (updateTree_Ok _ _ _ _ _ _ _ _ _ Hspec Hsk Hi). f_equal.
  assert (E : initialList
                (<[authority := VSlice (patchedList
                     (initialList sk authority index) index o c u cc)]> sk)
                authority index
              = patchedList (initialList sk authority index) index o c u cc)
    by (unfold initialList; now rewrite lookup_insert_eq).
  rewrite E, patchedList_overwrite by assumption.
  unfold patchedRoot. now rewrite insert_insert_eq.
Qed.

Lemma updateYAML_last_wins_witness :
  ∃ r1 r2,
    updateTree exampleTemplate "certificateAuthorities" 0 "o" "c" "u" "x"
    = Ok r1
    ∧ updateTree r1 "certificateAuthorities" 0 "p" "d" "v" "y" = Ok r2
    ∧ updateTree exampleTemplate "certificateAuthorities" 0 "p" "d" "v" "y"
      = Ok r2.
Proof.
  assert (H1 : updateTree exampleTemplate "certificateAuthorities" 0
                 "o" "c" "u" "x"
               = Ok (patchedRoot exampleTemplate
                       (<["sigstoreKeys" := VMap ∅]> ∅) ∅
                       "certificateAuthorities"
                       (patchedList (initialList ∅ "certificateAuthorities" 0)
                          0 "o" "c" "u" "x")))
    by (apply updateTree_Ok; [reflexivity..|lia]).
  assert (H2 := updateTree_patchedRoot exampleTemplate
                  (<["sigstoreKeys" := VMap ∅]> ∅) ∅
                  "certificateAuthorities" "certificateAuthorities"
                  (patchedList (initialList ∅ "certificateAuthorities" 0)
                     0 "o" "c" "u" "x")
                  0 "p" "d" "v" "y" ltac:(lia)).
  eexists _, _. split; [exact H1|]. split; [exact H2|].
  exact (updateYAML_last_wins _ _ _ _ _ _ _ _ _ _ _ _ _ H1 H2).
Defined.

(** ** [copyFile] and [updateYAML] on the file system *)

(** X8: a [copyFile] that returns no error has read [src], which exists, and
    left its bytes at [dst]; no other file and no line of standard error has
    changed. *)
Theorem copyFile_copies (src dst : string) (w w' : World) :
  copyFile src dst w = (w', None) →
  files w' !! dst = files w !! src
  ∧ is_Some (files w !! src)
  ∧ (∀ p : string, p ≠ dst → files w' !! p = files w !! p)
  ∧ stderr w' = stderr w.
Proof.
  unfold copyFile, ReadFile, WriteFile. intros H.
  destruct (files w !! src) as [data|] eqn:Hsrc; [|discriminate].
  destruct (decide (src ∈ unreadable w)); [discriminate|].
  destruct (decide (dst ∈ unwritable w)); [discriminate|].
  injection H as <-. cbn. rewrite lookup_insert_eq.
  repeat split; try reflexivity; [now exists data|].
  intros p Hp. now rewrite lookup_insert_ne.
Qed.

Lemma copyFile_copies_witness :
  ∃ w',
    copyFile "trustroot.template.yaml" "/tmp/trustroot.yaml" exampleWorld
    = (w', None)
    ∧ files w' !! "/tmp/trustroot.yaml"
      = files exampleWorld !! "trustroot.template.yaml".
Proof.
  eexists. split; [vm_compute; reflexivity|].
  apply (copyFile_copies "trustroot.template.yaml" "/tmp/trustroot.yaml"
           exampleWorld).
  vm_compute. reflexivity.
Defined.

(** X9: whatever [copyFile] returns, it has changed no file other than
    [dst] and written nothing to standard error; when [src] cannot be read it
    returns that error before [dst] is opened, so nothing has changed. *)
Theorem copyFile_touches_only_dst (src dst : string) (w w' : World)
    (r : option error) :
  copyFile src dst w = (w', r) →
  (∀ p : string, p ≠ dst → files w' !! p = files w !! p)
  ∧ stderr w' = stderr w
  ∧ ∀ err, ReadFile src w = inl err → w' = w ∧ r = Some err.
Proof.
  unfold copyFile. intros H.
  destruct (ReadFile src w) as [err|input] eqn:Hr.
  - injection H as <- <-. split; [reflexivity|]. split; [reflexivity|].
    intros err' [= <-]. now split.
  - unfold WriteFile in H.
    destruct (decide (dst ∈ unwritable w)); injection H as <- <-;
      (split; [|split; [reflexivity|discriminate]]); [reflexivity|].
    intros p Hp. cbn. now rewrite lookup_insert_ne.
Qed.

Lemma copyFile_touches_only_dst_witness :
  ∃ w' r,
    copyFile "missing.yaml" "/tmp/trustroot.yaml" exampleWorld = (w', r)
    ∧ (∀ p : string, p ≠ "/tmp/trustroot.yaml" →
         files w' !! p = files exampleWorld !! p)
    ∧ ReadFile "missing.yaml" exampleWorld
      = inl (ErrNotExist "open" "missing.yaml")
    ∧ w' = exampleWorld
    ∧ r = Some (ErrNotExist "open" "missing.yaml").
Proof.
  eexists _, _. split; [vm_compute; reflexivity|].
  assert (H := copyFile_touches_only_dst "missing.yaml"
                 "/tmp/trustroot.yaml" exampleWorld _ _ eq_refl).
  assert (Hr : ReadFile "missing.yaml" exampleWorld
               = inl (ErrNotExist "open" "missing.yaml"))
    by (vm_compute; reflexivity).
  split; [exact (proj1 H)|]. split; [exact Hr|].
  exact (proj2 (proj2 H) _ Hr).
Defined.


(** X10: a call of [updateYAML], whatever it returns, writes nothing to
    standard error and leaves every file but [filename] as it was; when it
    panics or returns an error other than that of the final write (the file
    could not be read or parsed, a section is missing, the tree could not be
    serialized), it has changed nothing at all. *)
Theorem updateYAML_footprint `{L : Libraries} (filename authority : string)
    (index : Z) (o c u cc : string) (w w' : World) (r : outcome unit) :
  updateYAML filename authority index o c u cc w = (w', r) →
  (∀ p : string, p ≠ filename → files w' !! p = files w !! p)
  ∧ stderr w' = stderr w
  ∧ unreadable w' = unreadable w
  ∧ unwritable w' = unwritable w
  ∧ ((∀ err, r ≠ Err (Errorf "failed to write updated YAML file: %w"
                        (Some err))) →
     r ≠ Ok tt → w' = w).
Proof.
  unfold updateYAML. intros H.
  destruct (ReadFile filename w) as [err|data];
    [injection H as <- <-; repeat split; reflexivity|].
  destruct (yaml_Unmarshal data) as [err|root];
    [injection H as <- <-; repeat split; reflexivity|].
  destruct (updateTree root authority index o c u cc) as [root'|e|msg];
    [|injection H as <- <-; repeat split; reflexivity..].
  destruct (yaml_Marshal root') as [err|updated];
    [injection H as <- <-; repeat split; reflexivity|].
  unfold WriteFile in H.
  destruct (decide (filename ∈ unwritable w)); injection H as <- <-.
  - split; [reflexivity|]. do 3 (split; [reflexivity|]). intros Hno _.
    now destruct (Hno (ErrPermission "open" filename)).
  - split; [|do 3 (split; [reflexivity|])].
    + intros p Hp. cbn. now rewrite lookup_insert_ne.
    + intros _ Hno. now destruct Hno.
Qed.

Lemma updateYAML_footprint_witness :
  ∃ w' r,
    updateYAML (L := exampleLibraries) "trustroot.template.yaml"
      "certificateAuthorities" 0 "o" "c" "u" "x" exampleWorld = (w', r)
    ∧ (∀ p : string, p ≠ "trustroot.template.yaml" →
         files w' !! p = files exampleWorld !! p)
    ∧ stderr w' = stderr exampleWorld.
Proof.
  eexists _, _. split; [vm_compute; reflexivity|].
  assert (H := updateYAML_footprint (L := exampleLibraries)
                 "trustroot.template.yaml" "certificateAuthorities" 0
                 "o" "c" "u" "x" exampleWorld _ _ eq_refl).
  split; [exact (proj1 H)|exact (proj1 (proj2 H))].
Defined.

(** ** [main] before the loops *)

Lemma setup_logs (flags : Flags) (w : World) :
  addLog (LogLine "URI: %s" [AString (uri flags)])
    (addLog (LogLine "Common Name: %s" [AString (commonName flags)])
      (addLog (LogLine "Organization: %s" [AString (organization flags)])
        (addLog (LogLine "Output Filename: %s"
                   [AString (outputFilepath flags)])
          (addLog (LogLine "Trusted Root Path: %s"
                     [AString (trustedRootPath flags)])
            (addLog (LogLine "Template File Path: %s"
                       [AString (templateFilePath flags)]) w)))))
  = addLogs (setupLines flags) w.
Proof.
  unfold addLog, addLogs, setupLines. cbn. f_equal.
  now rewrite <- !app_assoc.
Qed.

(** The output file emptied or created: the step succeeds exactly when the
    path can be written, and then the file is there and empty. *)
Lemma Truncate_or_Create (out : string) (w0 : World) :
  ((out ∉ unwritable w0)
   ∧ ((Truncate out w0 = (setFiles (<[out := []]> (files w0)) w0, None))
      ∨ (∃ err, Truncate out w0 = (w0, Some err) ∧ IsNotExist err = true
                ∧ Create out w0
                  = (setFiles (<[out := []]> (files w0)) w0, None))))
  ∨ ((out ∈ unwritable w0)
     ∧ ∃ err, (Truncate out w0 = (w0, Some err) ∧ IsNotExist err = false)
              ∨ (Truncate out w0 = (w0, Some (ErrNotExist "truncate" out))
                 ∧ Create out w0 = (w0, Some err))).
Proof.
  unfold Truncate, Create.
  destruct (decide (out ∈ unwritable w0)) as [Hin|Hout].
  - right. split; [assumption|].
    destruct (files w0 !! out); eexists; [left|right]; split; reflexivity.
  - left. split; [assumption|].
    destruct (files w0 !! out); [left; reflexivity|right].
    eexists. repeat split.
Qed.

Lemma setup_Done_inv `{L : Libraries} (flags : Flags) (w w1 : World)
    (trustedRoot : gmap string value) :
  setup flags w = (w1, Done trustedRoot) →
  ∃ input data,
    setupOk flags w input data trustedRoot
    ∧ w1 = setFiles (<[outputFilepath flags := input]> (files w))
             (addLogs (setupLines flags) w).
Proof.
  unfold setup, bind. intros H.
  destruct (String.eqb_spec (templateFilePath flags) EmptyString) as [E1|N1];
    [discriminate|].
  destruct (String.eqb_spec (trustedRootPath flags) EmptyString) as [E2|N2];
    [discriminate|].
  cbn in H. rewrite setup_logs in H.
  set (w0 := addLogs (setupLines flags) w) in *.
  set (out := outputFilepath flags) in *.
  assert (Hstep : (out ∉ unwritable w)
                  ∧ ∃ input data,
                      <[out := []]> (files w) !! templateFilePath flags
                      = Some input
                      ∧ (templateFilePath flags ∉ unreadable w)
                      ∧ <[out := input]> (files w) !! trustedRootPath flags
                        = Some data
                      ∧ (trustedRootPath flags ∉ unreadable w)
                      ∧ json_Decode data = inr trustedRoot
                      ∧ w1 = setFiles (<[out := input]> (files w)) w0).
  { assert (Hcopy : ∀ wa : World,
              wa = setFiles (<[out := []]> (files w)) w0 →
              (let (w'0, s0) :=
                 let (w'0, o) := copyFile (templateFilePath flags) out wa in
                 match o with
                 | Some err =>
                     Fatalf "Error copying template file: %v" [AErr err] w'0
                 | None => ret () w'0
                 end in
               match s0 with
               | Done _ =>
                   match ReadFile (trustedRootPath flags) w'0 with
                   | inl err =>
                       Fatalf "Error opening trusted_root.json: %v"
                         [AErr err] w'0
                   | inr data =>
                       match json_Decode data with
                       | inl err =>
                           Fatalf "Error decoding trusted_root.json: %v"
                             [AErr err] w'0
                       | inr trustedRoot => ret trustedRoot w'0
                       end
                   end
               | Exited code => (w'0, Exited code)
               end) = (w1, Done trustedRoot) →
              out ∉ unwritable w →
              ∃ input data,
                <[out := []]> (files w) !! templateFilePath flags = Some input
                ∧ (templateFilePath flags ∉ unreadable w)
                ∧ <[out := input]> (files w) !! trustedRootPath flags
                  = Some data
                ∧ (trustedRootPath flags ∉ unreadable w)
                ∧ json_Decode data = inr trustedRoot
                ∧ w1 = setFiles (<[out := input]> (files w)) w0).
    { intros wa -> Hc Hw. unfold copyFile, ReadFile, WriteFile in Hc.
      cbn [files unreadable unwritable setFiles addLogs w0] in Hc.
      destruct (<[out := []]> (files w) !! templateFilePath flags)
        as [input|] eqn:Hin; [|cbn in Hc; discriminate].
      destruct (decide (templateFilePath flags ∈ unreadable w));
        [cbn in Hc; discriminate|].
      destruct (decide (out ∈ unwritable w)); [contradiction|].
      cbn [files unreadable unwritable setFiles addLogs ret] in Hc.
      change (unreadable w0) with (unreadable w) in Hc.
      rewrite insert_insert_eq in Hc.
      destruct (<[out := input]> (files w) !! trustedRootPath flags)
        as [data|] eqn:Hd; [|cbn in Hc; discriminate].
      destruct (decide (trustedRootPath flags ∈ unreadable w));
        [cbn in Hc; discriminate|].
      destruct (json_Decode data) as [err|tr] eqn:Hj; [cbn in Hc; discriminate|].
      cbn [ret] in Hc. injection Hc as <- <-. exists input, data.
      repeat split; assumption. }
    destruct (Truncate_or_Create out w0) as [[Hw [E|(err & E & Hne & Ec)]]
                                            |[Hw (err & [[E Hne]|[E Ec]])]];
      rewrite E in H.
    - split; [exact Hw|]. now apply (Hcopy _ eq_refl).
    - rewrite Hne, Ec in H. cbn [negb] in H.
      split; [exact Hw|]. now apply (Hcopy _ eq_refl).
    - rewrite Hne in H. discriminate.
    - cbn [IsNotExist negb] in H. rewrite Ec in H. discriminate. }
  destruct Hstep as (Hw & input & data & H1 & H2 & H3 & H4 & H5 & ->).
  exists input, data. unfold setupOk. repeat split; assumption.
Qed.

Lemma setup_Done_intro `{L : Libraries} (flags : Flags) (w : World)
    (input data : list byte) (trustedRoot : gmap string value) :
  setupOk flags w input data trustedRoot →
  setup flags w
  = (setFiles (<[outputFilepath flags := input]> (files w))
       (addLogs (setupLines flags) w), Done trustedRoot).
Proof.
  intros (N1 & N2 & Hw & Hr1 & Hr2 & Hin & Hd & Hj).
  unfold setup, bind.
  destruct (String.eqb_spec (templateFilePath flags) EmptyString) as [E1|_];
    [contradiction|].
  destruct (String.eqb_spec (trustedRootPath flags) EmptyString) as [E2|_];
    [contradiction|].
  cbn. rewrite setup_logs.
  set (w0 := addLogs (setupLines flags) w).
  set (out := outputFilepath flags) in *.
  assert (Hcopy :
    (let (w'0, s0) :=
       let (w'0, o) :=
         copyFile (templateFilePath flags) out
           (setFiles (<[out := []]> (files w0)) w0) in
       match o with
       | Some err => Fatalf "Error copying template file: %v" [AErr err] w'0
       | None => ret () w'0
       end in
     match s0 with
     | Done _ =>
         match ReadFile (trustedRootPath flags) w'0 with
         | inl err =>
             Fatalf "Error opening trusted_root.json: %v" [AErr err] w'0
         | inr data =>
             match json_Decode data with
             | inl err =>
                 Fatalf "Error decoding trusted_root.json: %v" [AErr err] w'0
             | inr trustedRoot => ret trustedRoot w'0
             end
         end
     | Exited code => (w'0, Exited code)
     end)
    = (setFiles (<[out := input]> (files w)) w0, Done trustedRoot)).
  { unfold copyFile, ReadFile, WriteFile.
    cbn [files unreadable unwritable setFiles addLogs w0].
    change (files w0) with (files w). rewrite Hin.
    change (unreadable w0) with (unreadable w).
    change (unwritable w0) with (unwritable w).
    rewrite (decide_False (P := templateFilePath flags ∈ unreadable w))
      by assumption.
    rewrite (decide_False (P := out ∈ unwritable w)) by assumption.
    cbn [files unreadable unwritable setFiles addLogs ret].
    change (unreadable w0) with (unreadable w).
    rewrite insert_insert_eq, Hd.
    rewrite (decide_False (P := trustedRootPath flags ∈ unreadable w))
      by assumption.
    rewrite Hj. reflexivity. }
  destruct (Truncate_or_Create out w0) as [[_ [E|(err & E & Hne & Ec)]]
                                          |[Hin' _]].
  - rewrite E. exact Hcopy.
  - rewrite E, Hne, Ec. exact Hcopy.
  - contradiction.
Qed.

(** [main] leaves before the loops only through [log.Fatalf]. *)
Lemma setup_Exited `{L : Libraries} (flags : Flags) (w w1 : World)
    (code : Z) :
  setup flags w = (w1, Exited code) → code = 1.
Proof.
  unfold setup, bind. intros H.
  destruct (String.eqb (templateFilePath flags) EmptyString);
    [cbn in H; congruence|].
  destruct (String.eqb (trustedRootPath flags) EmptyString);
    [cbn in H; congruence|].
  cbn in H.
  repeat (match type of H with
          | context [Truncate ?a ?b] => destruct (Truncate a b) as [? [?|]]
          | context [Create ?a ?b] => destruct (Create a b) as [? [?|]]
          | context [copyFile ?a ?b ?c] =>
              destruct (copyFile a b c) as [? [?|]]
          | context [ReadFile ?a ?b] => destruct (ReadFile a b)
          | context [json_Decode ?a] => destruct (json_Decode a)
          | context [negb ?a] => destruct (negb a)
          end; cbn in H);
    unfold Fatalf, ret in H; congruence.
Qed.

(** X11: the program ends with status 0, 1 or 2.  It ends with status 2
    exactly when [flag.Parse] refuses the command line, and never through a
    panic of [main].  It ends with status 0 exactly when the command line
    asks for help, or [flag.Parse] returns the flags and both required paths
    are given, the output path can be written, the template can be read once
    the output file has been emptied, and [trusted_root.json] can be read
    once the template has been copied and decodes.  So once [flag.Parse] has
    returned, [main] ends with status 0 or 1, and nothing in the decoded
    document changes the status. *)
Theorem main_exit_status `{L : Libraries} (parsed : parseResult)
    (w : World) :
  (exitStatus parsed w = 0 ∨ exitStatus parsed w = 1
   ∨ exitStatus parsed w = 2)
  ∧ (exitStatus parsed w = 2 ↔ parsed = BadFlag)
  ∧ (exitStatus parsed w = 0
     ↔ parsed = HelpRequested
       ∨ ∃ flags input data trustedRoot,
           parsed = Parsed flags
           ∧ setupOk flags w input data trustedRoot)
  ∧ ∀ flags, parsed = Parsed flags →
      exitCode (main flags w) = 0 ∨ exitCode (main flags w) = 1.
Proof.
  destruct parsed as [flags| |]; cbn [exitStatus].
  - unfold main, bind.
    destruct (setup flags w) as [w1 [tr|code]] eqn:Hs.
    + destruct (processAuthorities_total flags tr w1) as [w2 E]. rewrite E.
      cbn. split; [now left|]. split; [split; discriminate|].
      split; [|intros flags' [= <-]; rewrite Hs, E; now left].
      split; [|reflexivity]. intros _. right.
      destruct (setup_Done_inv flags w w1 tr Hs) as (input & data & Hok & _).
      now exists flags, input, data, tr.
    + pose proof (setup_Exited flags w w1 code Hs) as ->. cbn.
      split; [right; now left|]. split; [split; discriminate|].
      split; [|intros flags' [= <-]; rewrite Hs; now right].
      split; [discriminate|].
      intros [Hh | (flags' & input & data & tr & [= <-] & Hok)];
        [discriminate|].
      rewrite (setup_Done_intro flags w input data tr Hok) in Hs.
      discriminate.
  - split; [now left|]. split; [split; discriminate|].
    split; [|discriminate]. split; [now left|reflexivity].
  - split; [right; now right|]. split; [now split|].
    split; [|discriminate]. split; [discriminate|].
    intros [Hh | (flags' & input & data & tr & Hp & _)]; discriminate.
Qed.



(** X13: when the output path is the template path, the truncation comes
    before the copy: if [main] reaches its loops, the file is empty, and the
    content of the template is lost. *)
Theorem same_path_empties_template `{L : Libraries} (flags : Flags)
    (w w1 : World) (trustedRoot : gmap string value) :
  setup flags w = (w1, Done trustedRoot) →
  outputFilepath flags = templateFilePath flags →
  files w1 !! outputFilepath flags = Some [].
Proof.
  intros H Heq.
  destruct (setup_Done_inv flags w w1 trustedRoot H)
    as (input & data & (_ & _ & _ & _ & _ & Hin & _) & ->).
  cbn [files setFiles]. rewrite lookup_insert_eq.
  rewrite <- Heq, lookup_insert_eq in Hin. congruence.
Qed.

Lemma same_path_empties_template_witness :
  let flags := {| outputFilepath := "trustroot.template.yaml";
                  templateFilePath := "trustroot.template.yaml";
                  trustedRootPath :=
                    "~/.sigstore/root/targets/trusted_root.json";
                  organization := "GitHub, Inc.";
                  commonName := "Internal Services Root";
                  uri := "https://fulcio.githubapp.com" |} in
  let w := {| files := <["trustroot.template.yaml" := [x61; x3a; x31]]>
                         (files exampleWorld);
              unreadable := ∅; unwritable := ∅; stderr := [] |} in
  ∃ w1 trustedRoot,
    setup (L := exampleLibraries) flags w = (w1, Done trustedRoot)
    ∧ outputFilepath flags = templateFilePath flags
    ∧ files w1 !! outputFilepath flags = Some [].
Proof.
  intros flags w.
  eexists _, _. split; [vm_compute; reflexivity|]. split; [reflexivity|].
  exact (same_path_empties_template (L := exampleLibraries) flags w _ _
           eq_refl eq_refl).
Defined.

(** X14: when the template does not exist (and the output path is another
    path, which can be written), [main] ends with status 1 only after it has
    emptied or created the output file: what the output file held is lost
    although the run fails. *)
Theorem missing_template_clobbers_output `{L : Libraries} (flags : Flags)
    (w : World) :
  templateFilePath flags ≠ EmptyString →
  trustedRootPath flags ≠ EmptyString →
  outputFilepath flags ≠ templateFilePath flags →
  files w !! templateFilePath flags = None →
  outputFilepath flags ∉ unwritable w →
  ∃ w',
    main flags w = (w', Exited 1)
    ∧ files w' = <[outputFilepath flags := []]> (files w).
Proof.
  intros N1 N2 Hne Hnone Hw. unfold main, setup, bind.
  destruct (String.eqb_spec (templateFilePath flags) EmptyString) as [E1|_];
    [contradiction|].
  destruct (String.eqb_spec (trustedRootPath flags) EmptyString) as [E2|_];
    [contradiction|].
  cbn. rewrite setup_logs.
  set (w0 := addLogs (setupLines flags) w).
  set (out := outputFilepath flags) in *.
  assert (Hcopy :
    copyFile (templateFilePath flags) out
      (setFiles (<[out := []]> (files w0)) w0)
    = (setFiles (<[out := []]> (files w0)) w0,
       Some (ErrNotExist "open" (templateFilePath flags)))).
  { unfold copyFile, ReadFile. cbn [files setFiles].
    change (files w0) with (files w).
    now rewrite lookup_insert_ne, Hnone by assumption. }
  destruct (Truncate_or_Create out w0) as [[_ [E|(err & E & Hn & Ec)]]
                                          |[Hin' _]].
  - rewrite E. cbn [ret]. rewrite Hcopy. eexists. split; reflexivity.
  - rewrite E, Hn, Ec. cbn [negb ret]. rewrite Hcopy.
    eexists. split; reflexivity.
  - contradiction.
Qed.

Lemma missing_template_clobbers_output_witness :
  let flags := {| outputFilepath := "/tmp/trustroot.yaml";
                  templateFilePath := "missing.yaml";
                  trustedRootPath :=
                    "~/.sigstore/root/targets/trusted_root.json";
                  organization := "GitHub, Inc.";
                  commonName := "Internal Services Root";
                  uri := "https://fulcio.githubapp.com" |} in
  templateFilePath flags ≠ EmptyString
  ∧ trustedRootPath flags ≠ EmptyString
  ∧ outputFilepath flags ≠ templateFilePath flags
  ∧ files exampleWorld !! templateFilePath flags = None
  ∧ (outputFilepath flags ∉ unwritable exampleWorld)
  ∧ ∃ w',
      main (L := exampleLibraries) flags exampleWorld = (w', Exited 1)
      ∧ files w' = <[outputFilepath flags := []]> (files exampleWorld).
Proof.
  intros flags.
  assert (H1 : templateFilePath flags ≠ EmptyString) by discriminate.
  assert (H2 : trustedRootPath flags ≠ EmptyString) by discriminate.
  assert (H3 : outputFilepath flags ≠ templateFilePath flags)
    by discriminate.
  assert (H4 : files exampleWorld !! templateFilePath flags = None)
    by (vm_compute; reflexivity).
  assert (H5 : outputFilepath flags ∉ unwritable exampleWorld)
    by apply not_elem_of_empty.
  repeat (split; [assumption|]).
  exact (missing_template_clobbers_output (L := exampleLibraries) flags
           exampleWorld H1 H2 H3 H4 H5).
Defined.

(** ** [main]: what the loops touch *)




Lemma touchesOnly_setFiles (out : string) (data : list byte) (w : World) :
  touchesOnly out w (setFiles (<[out := data]> (files w)) w).
Proof.
  repeat split.
  - intros p Hp. cbn. now rewrite lookup_insert_ne.
  - exists []. cbn. now rewrite app_nil_r.
Qed.









Lemma addLogs_addLogs (l1 l2 : list logLine) (w : World) :
  addLogs l2 (addLogs l1 w) = addLogs (l1 ++ l2) w.
Proof. unfold addLogs. cbn. now rewrite <- app_assoc. Qed.

Lemma forEach_addLogs {S : Type} (body : Z → value → S → Proc S)
    (P : World → Prop) :
  (∀ ls w, P w → P (addLogs ls w)) →
  (∀ j x s w, P w → ∃ lines s', body j x s w = (addLogs lines w, Done s')) →
  ∀ (l : list value) (j : Z) (s : S) (w : World),
    P w → ∃ lines s', forEach body j l s w = (addLogs lines w, Done s').
Proof.
  intros HP Hbody. induction l as [|x l IH]; intros j s w Hw; cbn [forEach].
  - exists [], s. unfold ret. now rewrite addLogs_nil.
  - unfold bind. destruct (Hbody j x s w Hw) as (l1 & s1 & ->).
    destruct (IH (j + 1) s1 (addLogs l1 w) (HP _ _ Hw)) as (l2 & s2 & ->).
    exists (l1 ++ l2), s2. now rewrite addLogs_addLogs.
Qed.

(** X16: [updateYAML] does not create [spec] or [sigstoreKeys]: when the
    document in the output file lacks one of them, the loops of [main] end
    normally, they only add lines to standard error, so no file has changed,
    and for every entry of either kind that has a certificate chain these
    lines hold [Error updating YAML for kind[i]] with the error of the
    missing section: every patch fails and is logged. *)
Theorem missing_sections_no_patch `{L : Libraries} (flags : Flags)
    (trustedRoot root : gmap string value) (data : list byte) (w : World) :
  ReadFile (outputFilepath flags) w = inr data →
  yaml_Unmarshal data = inr root →
  sigstoreKeysOf root = None →
  ∃ lines,
    processAuthorities flags trustedRoot w = (addLogs lines w, Done tt)
    ∧ ∀ authority l (i : nat) x,
        authority = "certificateAuthorities"
        ∨ authority = "timestampAuthorities" →
        trustedRoot !! authority = Some (VSlice l) →
        l !! i = Some x →
        missingSectionLogged authority (Z.of_nat i) x lines.
Proof.
  intros Hr Hu Hs.
  set (P := fun w0 : World => ReadFile (outputFilepath flags) w0 = inr data).
  assert (HP : ∀ ls w0, P w0 → P (addLogs ls w0)) by (intros; assumption).
  assert (Hmono : ∀ authority j x pre ls post,
            missingSectionLogged authority j x ls →
            missingSectionLogged authority j x (pre ++ ls ++ post)).
  { intros authority j x pre ls post Hq ad cd cs Hx Had Hcd.
    destruct (Hq ad cd cs Hx Had Hcd) as (err & Hin & Herr).
    exists err. split; [|exact Herr].
    apply elem_of_app. right. apply elem_of_app. now left. }
  assert (Hpatch : ∀ authority i cc w0, P w0 →
            ∃ err, patchEntry flags authority i cc w0
                   = (addLogs [LogLine "Error updating YAML for %s[%d]: %v"
                                 [AString authority; AInt i; AErr err]] w0,
                      Done tt)
                   ∧ (err = Errorf "missing 'spec' section in YAML" None
                      ∨ err = Errorf "missing 'sigstoreKeys' section in YAML"
                                None)).
  { intros authority i cc w0 Hw0. unfold patchEntry, updateYAML.
    unfold P in Hw0. rewrite Hw0, Hu.
    destruct (sigstoreKeysOf_None_Err root authority i (organization flags)
                (commonName flags) (uri flags) cc Hs) as [-> | ->];
      eexists; (split; [reflexivity|]); [now left | now right]. }
  assert (Hentry : ∀ authority j x w0, P w0 →
            ∃ lines, entryBody flags authority j x tt w0
                     = (addLogs lines w0, Done tt)
                     ∧ missingSectionLogged authority j x lines).
  { intros authority j x w0 Hw0.
    destruct x as [| | | | | |ad|];
      try (eexists [_]; split; [reflexivity|];
           intros ad' cd' cs' Hx; discriminate Hx).
    cbn [entryBody].
    destruct (ad !! "certChain") as [[| | | | | |cd|]|] eqn:Had;
      try (eexists [_]; split; [reflexivity|];
           intros ad' cd' cs' [= <-] Had'; congruence).
    destruct (cd !! "certificates") as [[| | | | |cs| |]|] eqn:Hcd;
      try (eexists [_]; split; [reflexivity|];
           intros ad' cd' cs' [= <-] Had' Hcd'; congruence).
    unfold bind.
    destruct (certLoop_spec authority j cs 0 EmptyString w0)
      as (l1 & -> & _).
    destruct (Hpatch authority j
                (Base64.EncodeToString
                   (bytesOf (EmptyString +:+ joinAll (pemBlocks cs))))
                (addLogs l1 w0) (HP _ _ Hw0)) as (err & -> & Herr).
    eexists (l1 ++ [_]). split; [now rewrite addLogs_addLogs|].
    intros _ _ _ _ _ _. exists err. split; [|exact Herr].
    apply elem_of_app. right. apply list_elem_of_here. }
  assert (Hloop : ∀ authority (l : list value) (j : Z) w0, P w0 →
            ∃ lines, forEach (entryBody flags authority) j l tt w0
                     = (addLogs lines w0, Done tt)
                     ∧ ∀ (k : nat) x, l !! k = Some x →
                         missingSectionLogged authority (j + Z.of_nat k) x
                           lines).
  { intros authority. induction l as [|x l IH]; intros j w0 Hw0;
      cbn [forEach].
    - exists []. unfold ret. rewrite addLogs_nil. split; [reflexivity|].
      intros k x Hk. discriminate Hk.
    - unfold bind. destruct (Hentry authority j x w0 Hw0) as (l1 & -> & Hq1).
      destruct (IH (j + 1) (addLogs l1 w0) (HP _ _ Hw0)) as (l2 & -> & Hq2).
      exists (l1 ++ l2). split; [now rewrite addLogs_addLogs|].
      intros [|k] y Hk.
      + injection Hk as <-. rewrite Z.add_0_r.
        apply (Hmono authority j x [] l1 l2). exact Hq1.
      + cbn in Hk. specialize (Hq2 k y Hk).
        replace (j + Z.of_nat (S k)) with (j + 1 + Z.of_nat k) by lia.
        rewrite <- (app_nil_r l2).
        apply (Hmono authority _ y l1 l2 []). exact Hq2. }
  assert (Hkind : ∀ authority w0, P w0 →
            ∃ lines, kindBody flags trustedRoot authority w0
                     = (addLogs lines w0, Done tt)
                     ∧ ∀ l (i : nat) x,
                         trustedRoot !! authority = Some (VSlice l) →
                         l !! i = Some x →
                         missingSectionLogged authority (Z.of_nat i) x lines).
  { intros authority w0 Hw0. unfold kindBody.
    destruct (trustedRoot !! authority) as [[| | | | |l| |]|];
      try (eexists [_]; split; [reflexivity|];
           intros l' i x Hl'; discriminate Hl').
    unfold bind, Printf.
    destruct (Hloop authority l 0
                (addLog (LogLine "There are %d %s"
                           [AInt (len l); AString authority]) w0))
      as (l1 & -> & Hq); [exact Hw0|].
    eexists ([_] ++ l1). split; [now rewrite addLog_addLogs, addLogs_addLogs|].
    intros l' i x [= <-] Hi.
    rewrite <- (app_nil_r l1).
    apply (Hmono authority _ x _ l1 []). exact (Hq i x Hi). }
  unfold processAuthorities, bind.
  destruct (Hkind "certificateAuthorities" w Hr) as (l1 & -> & Hq1).
  destruct (Hkind "timestampAuthorities" (addLogs l1 w) (HP _ _ Hr))
    as (l2 & -> & Hq2).
  exists (l1 ++ l2). split; [now rewrite addLogs_addLogs|].
  intros authority l i x [-> | ->] Hl Hi.
  - apply (Hmono _ _ x [] l1 l2). exact (Hq1 l i x Hl Hi).
  - rewrite <- (app_nil_r l2).
    apply (Hmono _ _ x l1 l2 []). exact (Hq2 l i x Hl Hi).
Qed.

Lemma missing_sections_no_patch_witness :
  let flags := {| outputFilepath := "trustroot.template.yaml";
                  templateFilePath := "trustroot.template.yaml";
                  trustedRootPath :=
                    "~/.sigstore/root/targets/trusted_root.json";
                  organization := "GitHub, Inc.";
                  commonName := "Internal Services Root";
                  uri := "https://fulcio.githubapp.com" |} in
  ReadFile (outputFilepath flags) exampleWorld = inr []
  ∧ yaml_Unmarshal (Libraries := exampleLibrariesNoSpec) [] = inr ∅
  ∧ sigstoreKeysOf ∅ = None
  ∧ ∃ lines,
      processAuthorities (L := exampleLibrariesNoSpec) flags exampleRoot
        exampleWorld = (addLogs lines exampleWorld, Done tt)
      ∧ ∃ err,
          LogLine "Error updating YAML for %s[%d]: %v"
            [AString "certificateAuthorities"; AInt 0; AErr err] ∈ lines
          ∧ (err = Errorf "missing 'spec' section in YAML" None
             ∨ err = Errorf "missing 'sigstoreKeys' section in YAML" None).
Proof.
  intros flags.
  assert (H1 : ReadFile (outputFilepath flags) exampleWorld = inr [])
    by (vm_compute; reflexivity).
  assert (H2 : yaml_Unmarshal (Libraries := exampleLibrariesNoSpec) []
               = inr ∅) by reflexivity.
  assert (H3 : sigstoreKeysOf ∅ = None) by reflexivity.
  repeat (split; [assumption|]).
  destruct (missing_sections_no_patch (L := exampleLibrariesNoSpec) flags
              exampleRoot ∅ [] exampleWorld H1 H2 H3) as (lines & Hrun & Hlog).
  exists lines. split; [exact Hrun|].
  exact (Hlog "certificateAuthorities"
           [exampleEntry [exampleCert; exampleBadCert]] 0%nat
           (exampleEntry [exampleCert; exampleBadCert])
           (or_introl eq_refl) eq_refl eq_refl
           (<["certChain" :=
               VMap (<["certificates" :=
                        VSlice [exampleCert; exampleBadCert]]> ∅)]> ∅)
           (<["certificates" := VSlice [exampleCert; exampleBadCert]]> ∅)
           [exampleCert; exampleBadCert] eq_refl eq_refl eq_refl).
Defined.

(** ** [main]: the loops *)

(** X17: the loop over a chain handles every certificate exactly once: each
    one either adds a block to the text or adds one line to standard error,
    so the lines and the blocks together are as many as the certificates. *)
Theorem certLoop_logs_or_blocks `{L : Libraries} (authority : string)
    (i j : Z) (certificates : list value) (pemData : string) (w : World) :
  ∃ lines,
    forEach (certBody authority i) j certificates pemData w
    = (addLogs lines w, Done (pemData +:+ joinAll (pemBlocks certificates)))
    ∧ (length lines + length (pemBlocks certificates)
       = length certificates)%nat.
Proof.
  revert j pemData w.
  induction certificates as [|c cs IH]; intros j pemData w.
  - exists []. cbn [forEach]. unfold ret.
    rewrite addLogs_nil. split; [|reflexivity].
    cbn [pemBlocks omap joinAll foldr]. 
    change (omap transcode []) with (@nil string). cbn [foldr].
    now rewrite append_empty_r.
  - cbn [forEach]. unfold bind. rewrite pemBlocks_cons.
    destruct (transcode c) as [pem|] eqn:Hc.
    + rewrite (certBody_good _ _ _ _ _ _ _ Hc).
      destruct (IH (j + 1) (pemData +:+ pem) w) as (lines & -> & Hlen).
      exists lines. split.
      * cbn [joinAll foldr]. now rewrite append_assoc.
      * cbn [length]. lia.
    + destruct (certBody_bad authority i j c pemData w Hc)
        as (fmt0 & more0 & ->).
      destruct (IH (j + 1) pemData
                  (addLog (LogLine fmt0 (AString authority :: AInt i
                                           :: AInt j :: more0)) w))
        as (lines & -> & Hlen).
      eexists. rewrite addLogs_addLog. split; [reflexivity|].
      cbn [length]. lia.
Qed.

Lemma forEach_app {St : Type} (body : Z → value → St → Proc St)
    (l1 l2 : list value) (j : Z) (s : St) (w : World) :
  forEach body j (l1 ++ l2) s w
  = match forEach body j l1 s w with
    | (w', Done s') => forEach body (j + len l1) l2 s' w'
    | (w', Exited code) => (w', Exited code)
    end.
Proof.
  revert j s w. induction l1 as [|x l1 IH]; intros j s w.
  - cbn [app forEach]. unfold ret, len. cbn. now rewrite Z.add_0_r.
  - rewrite <- app_comm_cons. cbn [forEach]. unfold bind.
    destruct (body j x s w) as [w1 [s1|code]]; [|reflexivity].
    rewrite IH. unfold len. cbn [length].
    now replace (j + 1 + Z.of_nat (length l1))
      with (j + Z.of_nat (S (length l1))) by lia.
Qed.

(** X18: an entry keeps its index: whatever became of the entries before it
    (patched, skipped, failed), the entry at position [k] of an authority
    kind is handled with index [k], and the loop goes on with [k + 1]. *)
Theorem entries_keep_their_index `{L : Libraries} (flags : Flags)
    (authority : string) (pre post : list value) (entry : value)
    (w : World) :
  ∃ w1 w2,
    forEach (entryBody flags authority) 0 pre tt w = (w1, Done tt)
    ∧ entryBody flags authority (len pre) entry tt w1 = (w2, Done tt)
    ∧ forEach (entryBody flags authority) 0 (pre ++ entry :: post) tt w
      = forEach (entryBody flags authority) (len pre + 1) post tt w2.
Proof.
  destruct (forEach_total (entryBody flags authority)) with
    (l := pre) (j := 0) (s := tt) (w := w) as (w1 & [] & E1); [|lia|].
  { intros j x [] w0 Hj.
    destruct (entryBody_total flags authority j x w0 Hj) as [w' E].
    now exists w', tt. }
  destruct (entryBody_total flags authority (len pre) entry w1) as [w2 E2];
    [unfold len; lia|].
  exists w1, w2. split; [exact E1|]. split; [exact E2|].
  rewrite forEach_app, E1. cbn [forEach]. unfold bind.
  rewrite Z.add_0_l, E2. reflexivity.
Qed.




(** ** Characters that base64 refuses *)

Module DecodeFacts.
Import Base64 Base64Facts.

Lemma skipNL_keeps (s : string) (c : ascii) :
  In c (list_ascii_of_string s) → isNL c = false →
  In c (list_ascii_of_string (skipNL s)).
Proof.
  intros Hin Hc. induction s as [|d s IH]; [assumption|].
  cbn [skipNL]. destruct (isNL d) eqn:Hd; [|assumption].
  apply IH. destruct Hin as [->|Hin]; [congruence|assumption].
Qed.

Lemma decodeFrom_bad_char (s : string) (c : ascii) :
  In c (list_ascii_of_string s) →
  decodeMap c = 255%N → isNL c = false → c ≠ padChar →
  ∀ dbuf, decodeFrom s dbuf = None.
Proof.
  intros Hin Hmap Hnl Hpad.
  assert (Hp : Ascii.eqb c padChar = false) by now apply Ascii.eqb_neq.
  induction s as [|d s IH]; intros dbuf; [destruct Hin|].
  cbn [decodeFrom].
  destruct Hin as [->|Hin].
  - now rewrite Hmap, Hnl, Hp.
  - specialize (IH Hin).
    destruct (negb (decodeMap d =? 255)%N).
    + rewrite !IH. now destruct (_ =? _)%nat.
    + destruct (isNL d); [apply IH|].
      destruct (negb (Ascii.eqb d padChar)); [reflexivity|].
      pose proof (skipNL_keeps s c Hin Hnl) as Hk.
      destruct (length dbuf) as [|[|[|n]]]; try reflexivity.
      * destruct (skipNL s) as [|c' rest']; [reflexivity|].
        destruct (Ascii.eqb_spec c' padChar) as [->|Hne]; [|reflexivity].
        destruct Hk as [Hk|Hk]; [congruence|].
        pose proof (skipNL_keeps rest' c Hk Hnl) as Hk'.
        destruct (skipNL rest'); [destruct Hk'|reflexivity].
      * destruct (skipNL s); [destruct Hk|reflexivity].
Qed.

End DecodeFacts.

(** X20: a [rawBytes] that holds a character outside the base64 alphabet,
    other than a line break or the padding character, never decodes: the
    certificate is logged with a base64 error and adds nothing to the chain,
    wherever the character stands. *)
Theorem bad_character_skips_certificate `{L : Libraries} (authority : string)
    (i j : Z) (cert : gmap string value) (rawBytes pemData : string)
    (c : ascii) (w : World) :
  cert !! "rawBytes" = Some (VString rawBytes) →
  In c (list_ascii_of_string rawBytes) →
  Base64.decodeMap c = 255%N →
  c ≠ newline → c ≠ carriage → c ≠ Base64.padChar →
  certBody authority i j (VMap cert) pemData w
  = (addLog (LogLine "Error decoding base64 for %s[%d][%d]: %v"
               [AString authority; AInt i; AInt j; AErr CorruptInputError])
       w, Done pemData).
Proof.
  intros Hraw Hin Hmap Hn Hcr Hpad.
  assert (Hnl : Base64.isNL c = false).
  { unfold Base64.isNL. apply orb_false_iff.
    split; now apply Ascii.eqb_neq. }
  unfold certBody. rewrite Hraw. unfold Base64.DecodeString.
  now rewrite (DecodeFacts.decodeFrom_bad_char rawBytes c Hin Hmap Hnl Hpad).
Qed.

Lemma bad_character_skips_certificate_witness :
  let cert : gmap string value := <["rawBytes" := VString "MA%="]> ∅ in
  cert !! "rawBytes" = Some (VString "MA%=")
  ∧ In "%"%char (list_ascii_of_string "MA%=")
  ∧ Base64.decodeMap "%"%char = 255%N
  ∧ "%"%char ≠ newline ∧ "%"%char ≠ carriage ∧ "%"%char ≠ Base64.padChar
  ∧ certBody (L := exampleLibraries) "certificateAuthorities" 0 0
      (VMap cert) EmptyString exampleWorld
    = (addLog (LogLine "Error decoding base64 for %s[%d][%d]: %v"
                 [AString "certificateAuthorities"; AInt 0; AInt 0;
                  AErr CorruptInputError]) exampleWorld, Done EmptyString).
Proof.
  intros cert.
  assert (H1 : cert !! "rawBytes" = Some (VString "MA%=")) by reflexivity.
  assert (H2 : In "%"%char (list_ascii_of_string "MA%="))
    by (right; right; left; reflexivity).
  assert (H3 : Base64.decodeMap "%"%char = 255%N) by reflexivity.
  assert (H4 : "%"%char ≠ newline) by discriminate.
  assert (H5 : "%"%char ≠ carriage) by discriminate.
  assert (H6 : "%"%char ≠ Base64.padChar) by discriminate.
  repeat (split; [assumption|]).
  exact (bad_character_skips_certificate (L := exampleLibraries)
           "certificateAuthorities" 0 0 cert "MA%=" EmptyString "%"%char
           exampleWorld H1 H2 H3 H4 H5 H6).
Defined.
